(** * IR_PID: a PID hot-plate controller with an infrared temperature sensor

    Verification development for [csource/IR_PID/IR_PID.cpp], the single-file
    Arduino sketch made of four "tabs": the PID control code, the heater
    control, the serial interface and the IR temperature sensor decoder,
    sequenced by [loop].

    Target conventions (AVR, avr-gcc):
    - [int] is 16 bits, [unsigned int] is 16 bits, [unsigned long] is 32 bits;
      integers are modelled as [Z] with the wrap-around written out;
    - [float] and [double] are both IEEE-754 binary32; floats are modelled by
      the standard library's [spec_float] at precision 24 and [emax] 128, with
      round-to-nearest-even, infinities and NaN;
    - [millis()] is a read of a free-running 32-bit millisecond counter; the
      k-th read of a run returns [clock k] reduced modulo 2^32.

    Serial output is modelled as the list of what is handed to
    [Serial.print]. The code that prints goes through [printFloat], whose
    [while] loop need not end and whose casts need not be defined, so the
    serial interface and [loop] are computations that may fail to return.
    Interrupts are taken between iterations of [loop]. The globals
    [thermo_temp], [lastRead] and [multiplier] are never used by the sketch
    and are left out. *)

From Stdlib Require Import String ZArith Bool List Lia Ascii.
From Stdlib Require Import Floats.SpecFloat.
Import ListNotations.
Local Open Scope Z_scope.

(** ** Machine integers *)

Definition u8 (z : Z) : Z := z mod 256.
Definition u16 (z : Z) : Z := z mod 65536.
Definition u32 (z : Z) : Z := z mod 4294967296.
(** 16-bit two's complement [int]. *)
Definition s16 (z : Z) : Z := (z + 32768) mod 65536 - 32768.

Definition chr (c : ascii) : Z := Z.of_N (N_of_ascii c).

(** ** binary32 floating point *)

Definition float32 : Type := spec_float.

Module F32.
Definition prec : Z := 24.
Definition emax : Z := 128.

Definition add : float32 -> float32 -> float32 := SFadd prec emax.
Definition sub : float32 -> float32 -> float32 := SFsub prec emax.
Definition mul : float32 -> float32 -> float32 := SFmul prec emax.
Definition div : float32 -> float32 -> float32 := SFdiv prec emax.
Definition opp : float32 -> float32 := SFopp.
Definition ltb : float32 -> float32 -> bool := SFltb.
Definition leb : float32 -> float32 -> bool := SFleb.
Definition eqb : float32 -> float32 -> bool := SFeqb.
Definition valid : float32 -> bool := valid_binary prec emax.

(** Conversion of an integer ([int], [unsigned long]) to [float]. *)
Definition of_Z (n : Z) : float32 := binary_normalize prec emax n 0 false.

(** A decimal literal [num/den]: both parts are exact in binary32, and one
    correctly rounded division gives the float nearest to the literal. *)
Definition lit (num den : Z) : float32 := div (of_Z num) (of_Z den).

Definition zero : float32 := S754_zero false.
Definition nan : float32 := S754_nan.

Definition is_nan (x : float32) : bool :=
  match x with S754_nan => true | _ => false end.

Definition is_finite (x : float32) : bool :=
  match x with S754_zero _ | S754_finite _ _ _ => true | _ => false end.

(** Not NaN and sign bit clear: [+0], a positive finite number or [+inf]. *)
Definition nonneg (x : float32) : bool :=
  match x with
  | S754_zero s | S754_infinity s | S754_finite s _ _ => negb s
  | S754_nan => false
  end.

(** The exact value of a finite float is [num / 2^sh], or [num * 2^e]. *)
Definition exact_num (x : float32) : Z :=
  match x with
  | S754_finite s m _ => if s then Z.neg m else Z.pos m
  | _ => 0
  end.
Definition exact_exp (x : float32) : Z :=
  match x with S754_finite _ _ e => e | _ => 0 end.
End F32.

Declare Scope f32_scope.
Delimit Scope f32_scope with f32.
Bind Scope f32_scope with float32.
Infix "+" := F32.add : f32_scope.
Infix "-" := F32.sub : f32_scope.
Infix "*" := F32.mul : f32_scope.
Infix "/" := F32.div : f32_scope.
Notation "- x" := (F32.opp x) : f32_scope.
Infix "<?" := F32.ltb : f32_scope.
Infix "<=?" := F32.leb : f32_scope.
Notation "x >? y" := (F32.ltb y x) : f32_scope.
Notation "x >=? y" := (F32.leb y x) : f32_scope.

(** ** Constants of the sketch *)

Definition PGAIN_ADR : Z := 0.
Definition IGAIN_ADR : Z := 4.
Definition DGAIN_ADR : Z := 8.
Definition TEMP_SETTING_ADR : Z := 12.
Definition PID_UPDATE_INTERVAL : Z := 200.
Definition WINDUP_GUARD_GAIN : float32 := Eval vm_compute in F32.of_Z 100.
Definition AUTO_PRINT_INTERVAL : Z := 200.
Definition MAX_DELTA : float32 := Eval vm_compute in F32.of_Z 100.
Definition MIN_DELTA : float32 := Eval vm_compute in F32.lit 1 100.

(** Float literals that occur in the code. *)
Definition f0_0 : float32 := F32.zero.
Definition f1_0 : float32 := Eval vm_compute in F32.of_Z 1.
Definition f10_0 : float32 := Eval vm_compute in F32.of_Z 10.
Definition f16_0 : float32 := Eval vm_compute in F32.of_Z 16.
Definition f30_0 : float32 := Eval vm_compute in F32.of_Z 30.
Definition f200_0 : float32 := Eval vm_compute in F32.of_Z 200.
Definition f1000_0 : float32 := Eval vm_compute in F32.of_Z 1000.
Definition f273_15 : float32 := Eval vm_compute in F32.lit 27315 100.
Definition f127_0_neg : float32 := Eval vm_compute in F32.of_Z (-127).

(** ** Global state, one record per tab of the sketch *)

Record PID : Type := mkPID {
  iState : float32;
  lastTemp : float32;
  pgain : float32;
  igain : float32;
  dgain : float32;
  pTerm : float32;
  iTerm : float32;
  dTerm : float32;
  pgainAddress : Z;
  igainAddress : Z;
  dgainAddress : Z
}.

Definition set_iState (v : float32) (p : PID) : PID :=
  {| iState := v; lastTemp := lastTemp p; pgain := pgain p; igain := igain p;
     dgain := dgain p; pTerm := pTerm p; iTerm := iTerm p; dTerm := dTerm p;
     pgainAddress := pgainAddress p; igainAddress := igainAddress p;
     dgainAddress := dgainAddress p |}.
Definition set_lastTemp (v : float32) (p : PID) : PID :=
  {| iState := iState p; lastTemp := v; pgain := pgain p; igain := igain p;
     dgain := dgain p; pTerm := pTerm p; iTerm := iTerm p; dTerm := dTerm p;
     pgainAddress := pgainAddress p; igainAddress := igainAddress p;
     dgainAddress := dgainAddress p |}.
Definition set_pgain (v : float32) (p : PID) : PID :=
  {| iState := iState p; lastTemp := lastTemp p; pgain := v; igain := igain p;
     dgain := dgain p; pTerm := pTerm p; iTerm := iTerm p; dTerm := dTerm p;
     pgainAddress := pgainAddress p; igainAddress := igainAddress p;
     dgainAddress := dgainAddress p |}.
Definition set_igain (v : float32) (p : PID) : PID :=
  {| iState := iState p; lastTemp := lastTemp p; pgain := pgain p; igain := v;
     dgain := dgain p; pTerm := pTerm p; iTerm := iTerm p; dTerm := dTerm p;
     pgainAddress := pgainAddress p; igainAddress := igainAddress p;
     dgainAddress := dgainAddress p |}.
Definition set_dgain (v : float32) (p : PID) : PID :=
  {| iState := iState p; lastTemp := lastTemp p; pgain := pgain p; igain :=
     igain p; dgain := v; pTerm := pTerm p; iTerm := iTerm p; dTerm := dTerm
     p; pgainAddress := pgainAddress p; igainAddress := igainAddress p;
     dgainAddress := dgainAddress p |}.
Definition set_pTerm (v : float32) (p : PID) : PID :=
  {| iState := iState p; lastTemp := lastTemp p; pgain := pgain p; igain :=
     igain p; dgain := dgain p; pTerm := v; iTerm := iTerm p; dTerm := dTerm
     p; pgainAddress := pgainAddress p; igainAddress := igainAddress p;
     dgainAddress := dgainAddress p |}.
Definition set_iTerm (v : float32) (p : PID) : PID :=
  {| iState := iState p; lastTemp := lastTemp p; pgain := pgain p; igain :=
     igain p; dgain := dgain p; pTerm := pTerm p; iTerm := v; dTerm := dTerm
     p; pgainAddress := pgainAddress p; igainAddress := igainAddress p;
     dgainAddress := dgainAddress p |}.
Definition set_dTerm (v : float32) (p : PID) : PID :=
  {| iState := iState p; lastTemp := lastTemp p; pgain := pgain p; igain :=
     igain p; dgain := dgain p; pTerm := pTerm p; iTerm := iTerm p; dTerm :=
     v; pgainAddress := pgainAddress p; igainAddress := igainAddress p;
     dgainAddress := dgainAddress p |}.
Definition set_pgainAddress (v : Z) (p : PID) : PID :=
  {| iState := iState p; lastTemp := lastTemp p; pgain := pgain p; igain :=
     igain p; dgain := dgain p; pTerm := pTerm p; iTerm := iTerm p; dTerm :=
     dTerm p; pgainAddress := v; igainAddress := igainAddress p; dgainAddress
     := dgainAddress p |}.
Definition set_igainAddress (v : Z) (p : PID) : PID :=
  {| iState := iState p; lastTemp := lastTemp p; pgain := pgain p; igain :=
     igain p; dgain := dgain p; pTerm := pTerm p; iTerm := iTerm p; dTerm :=
     dTerm p; pgainAddress := pgainAddress p; igainAddress := v; dgainAddress
     := dgainAddress p |}.
Definition set_dgainAddress (v : Z) (p : PID) : PID :=
  {| iState := iState p; lastTemp := lastTemp p; pgain := pgain p; igain :=
     igain p; dgain := dgain p; pTerm := pTerm p; iTerm := iTerm p; dTerm :=
     dTerm p; pgainAddress := pgainAddress p; igainAddress := igainAddress p;
     dgainAddress := v |}.

Record Heater : Type := mkHeater {
  heatcycles : float32;
  heaterState : bool;
  heatCurrentTime : Z;
  heatLastTime : Z;
  relay : bool
}.

Definition set_heatcycles (v : float32) (h : Heater) : Heater :=
  {| heatcycles := v; heaterState := heaterState h; heatCurrentTime :=
     heatCurrentTime h; heatLastTime := heatLastTime h; relay := relay h |}.
Definition set_heaterState (v : bool) (h : Heater) : Heater :=
  {| heatcycles := heatcycles h; heaterState := v; heatCurrentTime :=
     heatCurrentTime h; heatLastTime := heatLastTime h; relay := relay h |}.
Definition set_heatCurrentTime (v : Z) (h : Heater) : Heater :=
  {| heatcycles := heatcycles h; heaterState := heaterState h; heatCurrentTime
     := v; heatLastTime := heatLastTime h; relay := relay h |}.
Definition set_heatLastTime (v : Z) (h : Heater) : Heater :=
  {| heatcycles := heatcycles h; heaterState := heaterState h; heatCurrentTime
     := heatCurrentTime h; heatLastTime := v; relay := relay h |}.
Definition set_relay (v : bool) (h : Heater) : Heater :=
  {| heatcycles := heatcycles h; heaterState := heaterState h; heatCurrentTime
     := heatCurrentTime h; heatLastTime := heatLastTime h; relay := v |}.

Record Serial : Type := mkSerial {
  incomingByte : Z;
  delta : float32;
  autoupdate : bool;
  printmode : bool;
  lastUpdateTime : Z
}.

Definition set_incomingByte (v : Z) (s : Serial) : Serial :=
  {| incomingByte := v; delta := delta s; autoupdate := autoupdate s;
     printmode := printmode s; lastUpdateTime := lastUpdateTime s |}.
Definition set_delta (v : float32) (s : Serial) : Serial :=
  {| incomingByte := incomingByte s; delta := v; autoupdate := autoupdate s;
     printmode := printmode s; lastUpdateTime := lastUpdateTime s |}.
Definition set_autoupdate (v : bool) (s : Serial) : Serial :=
  {| incomingByte := incomingByte s; delta := delta s; autoupdate := v;
     printmode := printmode s; lastUpdateTime := lastUpdateTime s |}.
Definition set_printmode (v : bool) (s : Serial) : Serial :=
  {| incomingByte := incomingByte s; delta := delta s; autoupdate :=
     autoupdate s; printmode := v; lastUpdateTime := lastUpdateTime s |}.
Definition set_lastUpdateTime (v : Z) (s : Serial) : Serial :=
  {| incomingByte := incomingByte s; delta := delta s; autoupdate :=
     autoupdate s; printmode := printmode s; lastUpdateTime := v |}.

Record Decoder : Type := mkDecoder {
  nbits : Z;
  hexbyte : Z;
  read_byte : Z;
  byte_ready : Z;
  message : list Z;
  nbytes : Z;
  message_waiting : Z
}.

Definition set_nbits (v : Z) (d : Decoder) : Decoder :=
  {| nbits := v; hexbyte := hexbyte d; read_byte := read_byte d; byte_ready :=
     byte_ready d; message := message d; nbytes := nbytes d; message_waiting
     := message_waiting d |}.
Definition set_hexbyte (v : Z) (d : Decoder) : Decoder :=
  {| nbits := nbits d; hexbyte := v; read_byte := read_byte d; byte_ready :=
     byte_ready d; message := message d; nbytes := nbytes d; message_waiting
     := message_waiting d |}.
Definition set_read_byte (v : Z) (d : Decoder) : Decoder :=
  {| nbits := nbits d; hexbyte := hexbyte d; read_byte := v; byte_ready :=
     byte_ready d; message := message d; nbytes := nbytes d; message_waiting
     := message_waiting d |}.
Definition set_byte_ready (v : Z) (d : Decoder) : Decoder :=
  {| nbits := nbits d; hexbyte := hexbyte d; read_byte := read_byte d;
     byte_ready := v; message := message d; nbytes := nbytes d;
     message_waiting := message_waiting d |}.
Definition set_message (v : list Z) (d : Decoder) : Decoder :=
  {| nbits := nbits d; hexbyte := hexbyte d; read_byte := read_byte d;
     byte_ready := byte_ready d; message := v; nbytes := nbytes d;
     message_waiting := message_waiting d |}.
Definition set_nbytes (v : Z) (d : Decoder) : Decoder :=
  {| nbits := nbits d; hexbyte := hexbyte d; read_byte := read_byte d;
     byte_ready := byte_ready d; message := message d; nbytes := v;
     message_waiting := message_waiting d |}.
Definition set_message_waiting (v : Z) (d : Decoder) : Decoder :=
  {| nbits := nbits d; hexbyte := hexbyte d; read_byte := read_byte d;
     byte_ready := byte_ready d; message := message d; nbytes := nbytes d;
     message_waiting := v |}.

Record Sampler : Type := mkSampler {
  last_time : Z;
  consectutive_timeouts : Z;
  temp : float32;
  ambient : float32;
  tcSum : float32;
  latestReading : float32;
  readCount : Z
}.

Definition set_last_time (v : Z) (s : Sampler) : Sampler :=
  {| last_time := v; consectutive_timeouts := consectutive_timeouts s; temp :=
     temp s; ambient := ambient s; tcSum := tcSum s; latestReading :=
     latestReading s; readCount := readCount s |}.
Definition set_consectutive_timeouts (v : Z) (s : Sampler) : Sampler :=
  {| last_time := last_time s; consectutive_timeouts := v; temp := temp s;
     ambient := ambient s; tcSum := tcSum s; latestReading := latestReading s;
     readCount := readCount s |}.
Definition set_temp (v : float32) (s : Sampler) : Sampler :=
  {| last_time := last_time s; consectutive_timeouts := consectutive_timeouts
     s; temp := v; ambient := ambient s; tcSum := tcSum s; latestReading :=
     latestReading s; readCount := readCount s |}.
Definition set_ambient (v : float32) (s : Sampler) : Sampler :=
  {| last_time := last_time s; consectutive_timeouts := consectutive_timeouts
     s; temp := temp s; ambient := v; tcSum := tcSum s; latestReading :=
     latestReading s; readCount := readCount s |}.
Definition set_tcSum (v : float32) (s : Sampler) : Sampler :=
  {| last_time := last_time s; consectutive_timeouts := consectutive_timeouts
     s; temp := temp s; ambient := ambient s; tcSum := v; latestReading :=
     latestReading s; readCount := readCount s |}.
Definition set_latestReading (v : float32) (s : Sampler) : Sampler :=
  {| last_time := last_time s; consectutive_timeouts := consectutive_timeouts
     s; temp := temp s; ambient := ambient s; tcSum := tcSum s; latestReading
     := v; readCount := readCount s |}.
Definition set_readCount (v : Z) (s : Sampler) : Sampler :=
  {| last_time := last_time s; consectutive_timeouts := consectutive_timeouts
     s; temp := temp s; ambient := ambient s; tcSum := tcSum s; latestReading
     := latestReading s; readCount := v |}.

Record Main : Type := mkMain {
  targetTemp : float32;
  heatPower : float32;
  lastPIDTime : Z;
  epoch : Z
}.

Definition set_targetTemp (v : float32) (m : Main) : Main :=
  {| targetTemp := v; heatPower := heatPower m; lastPIDTime := lastPIDTime m;
     epoch := epoch m |}.
Definition set_heatPower (v : float32) (m : Main) : Main :=
  {| targetTemp := targetTemp m; heatPower := v; lastPIDTime := lastPIDTime m;
     epoch := epoch m |}.
Definition set_lastPIDTime (v : Z) (m : Main) : Main :=
  {| targetTemp := targetTemp m; heatPower := heatPower m; lastPIDTime := v;
     epoch := epoch m |}.
Definition set_epoch (v : Z) (m : Main) : Main :=
  {| targetTemp := targetTemp m; heatPower := heatPower m; lastPIDTime :=
     lastPIDTime m; epoch := v |}.

Record World : Type := mkWorld {
  pid : PID;
  heater : Heater;
  serial : Serial;
  dec : Decoder;
  sampler : Sampler;
  main : Main;
  eeprom : Z -> float32;
  rx : list Z;
  clock : nat -> Z;
  reads : nat
}.

Definition set_pid (v : PID) (w : World) : World :=
  {| pid := v; heater := heater w; serial := serial w; dec := dec w; sampler
     := sampler w; main := main w; eeprom := eeprom w; rx := rx w; clock :=
     clock w; reads := reads w |}.
Definition set_heater (v : Heater) (w : World) : World :=
  {| pid := pid w; heater := v; serial := serial w; dec := dec w; sampler :=
     sampler w; main := main w; eeprom := eeprom w; rx := rx w; clock := clock
     w; reads := reads w |}.
Definition set_serial (v : Serial) (w : World) : World :=
  {| pid := pid w; heater := heater w; serial := v; dec := dec w; sampler :=
     sampler w; main := main w; eeprom := eeprom w; rx := rx w; clock := clock
     w; reads := reads w |}.
Definition set_dec (v : Decoder) (w : World) : World :=
  {| pid := pid w; heater := heater w; serial := serial w; dec := v; sampler
     := sampler w; main := main w; eeprom := eeprom w; rx := rx w; clock :=
     clock w; reads := reads w |}.
Definition set_sampler (v : Sampler) (w : World) : World :=
  {| pid := pid w; heater := heater w; serial := serial w; dec := dec w;
     sampler := v; main := main w; eeprom := eeprom w; rx := rx w; clock :=
     clock w; reads := reads w |}.
Definition set_main (v : Main) (w : World) : World :=
  {| pid := pid w; heater := heater w; serial := serial w; dec := dec w;
     sampler := sampler w; main := v; eeprom := eeprom w; rx := rx w; clock :=
     clock w; reads := reads w |}.
Definition set_eeprom (v : Z -> float32) (w : World) : World :=
  {| pid := pid w; heater := heater w; serial := serial w; dec := dec w;
     sampler := sampler w; main := main w; eeprom := v; rx := rx w; clock :=
     clock w; reads := reads w |}.
Definition set_rx (v : list Z) (w : World) : World :=
  {| pid := pid w; heater := heater w; serial := serial w; dec := dec w;
     sampler := sampler w; main := main w; eeprom := eeprom w; rx := v; clock
     := clock w; reads := reads w |}.
Definition set_clock (v : nat -> Z) (w : World) : World :=
  {| pid := pid w; heater := heater w; serial := serial w; dec := dec w;
     sampler := sampler w; main := main w; eeprom := eeprom w; rx := rx w;
     clock := v; reads := reads w |}.
Definition set_reads (v : nat) (w : World) : World :=
  {| pid := pid w; heater := heater w; serial := serial w; dec := dec w;
     sampler := sampler w; main := main w; eeprom := eeprom w; rx := rx w;
     clock := clock w; reads := v |}.

(** ** A state monad over the globals *)

Definition M (A : Type) : Type := World -> A * World.

Definition ret {A : Type} (a : A) : M A := fun w => (a, w).

Definition bind {A B : Type} (m : M A) (k : A -> M B) : M B :=
  fun w => let r := m w in k (fst r) (snd r).

Notation "x <- m ;; k" := (bind m (fun x => k))
  (at level 61, m at next level, right associativity).
Notation "m ;; k" := (bind m (fun _ => k))
  (at level 61, right associativity).

Definition gets {A : Type} (f : World -> A) : M A := fun w => (f w, w).
Definition modify (f : World -> World) : M unit := fun w => (tt, f w).
Definition when (b : bool) (m : M unit) : M unit := if b then m else ret tt.

Definition exec {A : Type} (m : M A) (w : World) : World := snd (m w).
Definition eval {A : Type} (m : M A) (w : World) : A := fst (m w).

Definition upd_pid (f : PID -> PID) : M unit :=
  modify (fun w => set_pid (f (pid w)) w).
Definition upd_heater (f : Heater -> Heater) : M unit :=
  modify (fun w => set_heater (f (heater w)) w).
Definition upd_serial (f : Serial -> Serial) : M unit :=
  modify (fun w => set_serial (f (serial w)) w).
Definition upd_dec (f : Decoder -> Decoder) : M unit :=
  modify (fun w => set_dec (f (dec w)) w).
Definition upd_sampler (f : Sampler -> Sampler) : M unit :=
  modify (fun w => set_sampler (f (sampler w)) w).
Definition upd_main (f : Main -> Main) : M unit :=
  modify (fun w => set_main (f (main w)) w).

(** [millis()]: the next reading of the millisecond counter. *)
Definition millis : M Z :=
  fun w => (u32 (clock w (reads w)), set_reads (S (reads w)) w).

(** ** EEPROM float stuff

    Floats live in 4-byte slots at addresses 0, 4, 8 and 12; the store is
    modelled slot by slot. *)

Definition readFloat (address : Z) : M float32 :=
  gets (fun w => eeprom w address).

Definition writeFloat (value : float32) (address : Z) : M unit :=
  modify (fun w =>
    set_eeprom (fun a => if a =? address then value else eeprom w a) w).

(** ** PID control code *)

Definition setupPID (padd iadd dadd : Z) : M unit :=
  upd_pid (set_pgainAddress padd) ;;
  upd_pid (set_igainAddress iadd) ;;
  upd_pid (set_dgainAddress dadd) ;;
  p <- readFloat padd ;; upd_pid (set_pgain p) ;;
  i <- readFloat iadd ;; upd_pid (set_igain i) ;;
  d <- readFloat dadd ;; upd_pid (set_dgain d).

Definition getP : M float32 := gets (fun w => pgain (pid w)).
Definition getI : M float32 := gets (fun w => igain (pid w)).
Definition getD : M float32 := gets (fun w => dgain (pid w)).

Definition setP (p : float32) : M unit :=
  upd_pid (set_pgain p) ;;
  a <- gets (fun w => pgainAddress (pid w)) ;; writeFloat p a.

Definition setI (i : float32) : M unit :=
  upd_pid (set_igain i) ;;
  a <- gets (fun w => igainAddress (pid w)) ;; writeFloat i a.

Definition setD (d : float32) : M unit :=
  upd_pid (set_dgain d) ;;
  a <- gets (fun w => dgainAddress (pid w)) ;; writeFloat d a.

Definition updatePID (targetTemp curTemp : float32) : M float32 :=
  let error := (targetTemp - curTemp)%f32 in
  upd_pid (fun p => set_pTerm (pgain p * error)%f32 p) ;;
  upd_pid (fun p => set_iState (iState p + error)%f32 p) ;;
  p <- gets pid ;;
  let windupGaurd := (WINDUP_GUARD_GAIN / igain p)%f32 in
  (if (iState p >? windupGaurd)%f32 then
     upd_pid (set_iState windupGaurd)
   else if (iState p <? - windupGaurd)%f32 then
     upd_pid (set_iState (- windupGaurd)%f32)
   else ret tt) ;;
  upd_pid (fun p => set_iTerm (igain p * iState p)%f32 p) ;;
  upd_pid (fun p => set_dTerm (dgain p * (curTemp - lastTemp p))%f32 p) ;;
  upd_pid (set_lastTemp curTemp) ;;
  p <- gets pid ;;
  ret (pTerm p + iTerm p - dTerm p)%f32.

(** ** Heater control *)

Definition _turnHeatElementOnOff (on : bool) : M unit :=
  upd_heater (set_relay on) ;;
  upd_heater (set_heaterState on).

Definition updateHeater : M unit :=
  now <- millis ;;
  upd_heater (set_heatCurrentTime now) ;;
  h <- gets heater ;;
  when ((u32 (heatCurrentTime h - heatLastTime h) >=? 1000)
        || (heatLastTime h >? heatCurrentTime h))
    (_turnHeatElementOnOff true ;;
     upd_heater (fun h => set_heatLastTime (heatCurrentTime h) h)) ;;
  h <- gets heater ;;
  when (F32.of_Z (u32 (heatCurrentTime h - heatLastTime h)) >=? heatcycles h)%f32
    (_turnHeatElementOnOff false).

Definition setHeatPowerPercentage (power : float32) : M unit :=
  let power := if (power <=? f0_0)%f32 then f0_0 else power in
  let power := if (power >=? f1000_0)%f32 then f1000_0 else power in
  upd_heater (set_heatcycles power).

Definition getHeatCycles : M float32 := gets (fun w => heatcycles (heater w)).

(** ** Main-tab accessors used by the serial interface *)

Definition setTargetTemp (t : float32) : M unit :=
  upd_main (set_targetTemp t) ;; writeFloat t TEMP_SETTING_ADR.

Definition getTargetTemp : M float32 := gets (fun w => targetTemp (main w)).

(** ** IR temperature sensor *)

(** [int t = message[1]<<8 | message[2]; ... t/16.0 - 273.15] *)
Definition decode_temp (msg : list Z) : float32 :=
  let t := s16 (Z.lor (Z.shiftl (nth 1 msg 0) 8) (nth 2 msg 0)) in
  (F32.of_Z t / f16_0 - f273_15)%f32.

Definition updateTempSensor : M unit :=
  d <- gets dec ;;
  when (message_waiting d =? 1)
    (now <- millis ;;
     upd_sampler (set_last_time now) ;;
     upd_sampler (set_consectutive_timeouts 0) ;;
     (if nth 0 (message d) 0 =? 0x4c then
        upd_sampler (set_temp (decode_temp (message d)))
      else if nth 0 (message d) 0 =? 0x66 then
        upd_sampler (set_ambient (decode_temp (message d)))
      else ret tt) ;;
     upd_dec (set_message_waiting 0)) ;;
  upd_sampler (fun s => set_tcSum (tcSum s + temp s)%f32 s) ;;
  upd_sampler (fun s => set_readCount (s16 (readCount s + 1)) s) ;;
  now <- millis ;;
  s <- gets sampler ;;
  when (u32 (now - last_time s) >? 1000)
    (upd_dec (set_nbits 0) ;;
     upd_dec (set_nbytes 0) ;;
     upd_dec (set_hexbyte 0) ;;
     upd_dec (set_message_waiting 0) ;;
     upd_dec (set_byte_ready 0) ;;
     now <- millis ;;
     upd_sampler (set_last_time now) ;;
     upd_sampler (fun s =>
       set_consectutive_timeouts (u16 (consectutive_timeouts s + 1)) s)).

(** [message[i] = v] on the 4-byte array; a store outside the array has no
    defined result. *)
Definition store_message (i v : Z) (msg : list Z) : option (list Z) :=
  if (0 <=? i) && (i <? 4) then
    Some (firstn (Z.to_nat i) msg ++ v :: skipn (S (Z.to_nat i)) msg)
  else None.

(** Interrupt routine for the falling edge of the sensor clock; [val] is the
    level read on the data line. *)
Definition readBit (val : bool) (d : Decoder) : option Decoder :=
  let d := set_nbits (s16 (nbits d + 1)) d in
  let bit := if val then 1 else 0 in
  let d := set_hexbyte (u8 (Z.lor (Z.shiftl (hexbyte d) 1) bit)) d in
  if nbits d =? 8 then
    let d :=
      if byte_ready d =? 0
      then set_byte_ready 1 (set_read_byte (hexbyte d) d) else d in
    let r :=
      if hexbyte d =? 0xd then
        Some (set_message_waiting 1 (set_nbytes 0 d))
      else if message_waiting d =? 0 then
        let stored :=
          if nbytes d <? 4 then
            option_map (fun m => set_message m d)
                       (store_message (nbytes d) (hexbyte d) (message d))
          else Some d in
        option_map (fun d => set_nbytes (s16 (nbytes d + 1)) d) stored
      else Some d in
    option_map (fun d => set_nbits 0 (set_hexbyte 0 d)) r
  else Some d.

(** A burst of clock edges, one data-line level per edge. *)
Fixpoint readBits (vals : list bool) (d : Decoder) : option Decoder :=
  match vals with
  | [] => Some d
  | v :: rest =>
      match readBit v d with
      | Some d' => readBits rest d'
      | None => None
      end
  end.

(** The eight data-line levels of one byte, most significant bit first. *)
Definition bits_of_byte (b : Z) : list bool :=
  map (fun i => Z.testbit b (Z.of_nat i)) [7; 6; 5; 4; 3; 2; 1; 0]%nat.

Definition getFreshTemp : M float32 :=
  upd_sampler (fun s => set_latestReading (temp s) s) ;;
  upd_sampler (set_readCount 0) ;;
  upd_sampler (set_tcSum f0_0) ;;
  gets (fun w => latestReading (sampler w)).

Definition getLastTemp : M float32 :=
  gets (fun w => latestReading (sampler w)).

(** ** Printing floats

    [printFloat] has a [while] loop that need not end and casts from [float]
    to [int] that need not be defined, so it is modelled with an explicit
    outcome; the code that calls it inherits both. *)

(** What is sent to the serial line: [Serial.print] of a string, of a
    character, or of an [int] in decimal. *)
Inductive token : Type :=
  | Tstr (s : string)
  | Tchar (c : ascii)
  | Tint (n : Z).

(** A computation with a [while] loop and [float]-to-[int] casts: it returns,
    or runs out of the iterations allowed, or casts a value that does not
    fit an [int], which C leaves undefined. *)
Inductive outcome (A : Type) : Type :=
  | Done (a : A)
  | OutOfFuel
  | Undefined.
Arguments Done {A} a.
Arguments OutOfFuel {A}.
Arguments Undefined {A}.

(** [(int) x]: truncation toward zero, defined when the result fits 16 bits. *)
Definition to_int (x : float32) : option Z :=
  match x with
  | S754_zero _ => Some 0
  | S754_finite s m e =>
      let v := if 0 <=? e then Z.pos m * 2 ^ e else Z.pos m / 2 ^ (- e) in
      let z := if s then - v else v in
      if (-32768 <=? z) && (z <=? 32767) then Some z else None
  | _ => None
  end.

Definition f0_1 : float32 := Eval vm_compute in F32.lit 1 10.
Definition f0_5 : float32 := Eval vm_compute in F32.lit 1 2.
Definition f1_0_neg : float32 := Eval vm_compute in F32.of_Z (-1).

(** [for (i = 0; i < places; i++) d /= 10.0;] *)
Fixpoint scale_d (n : nat) (d : float32) : float32 :=
  match n with
  | O => d
  | S n' => scale_d n' (d / f10_0)%f32
  end.

(** [while ((tens * 10.0) <= tempfloat) { tens *= 10.0; tenscount += 1; }] *)
Fixpoint tens_loop (fuel : nat) (tens : float32) (tenscount : Z)
    (tempfloat : float32) : option (float32 * Z) :=
  match fuel with
  | O => None
  | S fuel' =>
      if (tens * f10_0 <=? tempfloat)%f32
      then tens_loop fuel' (tens * f10_0)%f32 (s16 (tenscount + 1)) tempfloat
      else Some (tens, tenscount)
  end.

(** The loop over the digits before the point. *)
Fixpoint int_digits (n : nat) (tempfloat tens : float32) (out : list token)
    : option (float32 * list token) :=
  match n with
  | O => Some (tempfloat, out)
  | S n' =>
      match to_int (tempfloat / tens)%f32 with
      | None => None
      | Some digit =>
          int_digits n' (tempfloat - F32.of_Z digit * tens)%f32
                     (tens / f10_0)%f32 (out ++ [Tint digit])
      end
  end.

(** The loop over the digits after the point. *)
Fixpoint frac_digits (n : nat) (tempfloat : float32) (out : list token)
    : option (list token) :=
  match n with
  | O => Some out
  | S n' =>
      let tempfloat := (tempfloat * f10_0)%f32 in
      match to_int tempfloat with
      | None => None
      | Some digit =>
          frac_digits n' (tempfloat - F32.of_Z digit)%f32 (out ++ [Tint digit])
      end
  end.

(** [printFloat(value, places)]; [fuel] bounds the rounds of the [while]
    loop, the two [for] loops run [tenscount] and [places] times. *)
Definition printFloat (fuel : nat) (value : float32) (places : Z)
    : outcome (list token) :=
  let tens := f0_1 in
  let tempfloat := value in
  let d := f0_5 in
  let d := if (value <? f0_0)%f32 then (d * f1_0_neg)%f32 else d in
  let d := scale_d (Z.to_nat places) d in
  let tempfloat := (tempfloat + d)%f32 in
  let tempfloat :=
    if (value <? f0_0)%f32 then (tempfloat * f1_0_neg)%f32 else tempfloat in
  match tens_loop fuel tens 0 tempfloat with
  | None => OutOfFuel
  | Some (tens, tenscount) =>
      let out := if (value <? f0_0)%f32 then [Tchar "-"%char] else [] in
      let out := if tenscount =? 0 then out ++ [Tint 0] else out in
      match int_digits (Z.to_nat tenscount) tempfloat tens out with
      | None => Undefined
      | Some (tempfloat, out) =>
          if places <=? 0 then Done out
          else
            match frac_digits (Z.to_nat places) tempfloat
                              (out ++ [Tchar "."%char]) with
            | None => Undefined
            | Some out => Done out
            end
      end
  end.

(** ** Code that prints

    A computation over the globals that also writes to the serial line and
    can fail to return: [fuel] is the number of rounds allowed to each
    [while] loop of [printFloat]. *)

Definition P (A : Type) : Type :=
  nat -> World -> outcome (A * World * list token).

Definition pret {A : Type} (a : A) : P A := fun _ w => Done (a, w, []).

Definition pbind {A B : Type} (m : P A) (k : A -> P B) : P B :=
  fun fuel w =>
    match m fuel w with
    | Done (a, w1, out1) =>
        match k a fuel w1 with
        | Done (b, w2, out2) => Done (b, w2, out1 ++ out2)
        | OutOfFuel => OutOfFuel
        | Undefined => Undefined
        end
    | OutOfFuel => OutOfFuel
    | Undefined => Undefined
    end.

Notation "x <- m ;;; k" := (pbind m (fun x => k))
  (at level 61, m at next level, right associativity).
Notation "m ;;; k" := (pbind m (fun _ => k))
  (at level 61, right associativity).

(** Code that neither prints nor loops. *)
Definition lift {A : Type} (m : M A) : P A :=
  fun _ w => Done (eval m w, exec m w, []).

Definition pwhen (b : bool) (m : P unit) : P unit := if b then m else pret tt.

Definition CRLF : string := String "013" (String "010" EmptyString).

(** [Serial.print(s)], [Serial.println(s)] and [Serial.println()]. *)
Definition Serial_print (s : string) : P unit :=
  fun _ w => Done (tt, w, [Tstr s]).
Definition Serial_println (s : string) : P unit :=
  fun _ w => Done (tt, w, [Tstr s; Tstr CRLF]).
Definition Serial_newline : P unit := Serial_print CRLF.

(** A call of [printFloat]. *)
Definition callPrintFloat (value : float32) (places : Z) : P unit :=
  fun fuel w =>
    match printFloat fuel value places with
    | Done out => Done (tt, w, out)
    | OutOfFuel => OutOfFuel
    | Undefined => Undefined
    end.

(** [printPIDDebugString] of the PID tab. *)
Definition printPIDDebugString : P unit :=
  Serial_print "PID formula (P + I - D): " ;;;
  p <- lift (gets pid) ;;;
  callPrintFloat (pTerm p) 2 ;;;
  Serial_print " + " ;;;
  p <- lift (gets pid) ;;;
  callPrintFloat (iTerm p) 2 ;;;
  Serial_print " - " ;;;
  p <- lift (gets pid) ;;;
  callPrintFloat (dTerm p) 2 ;;;
  Serial_print " POWER: " ;;;
  h <- lift getHeatCycles ;;;
  callPrintFloat h 0 ;;;
  Serial_print " ".

(** ** Serial interface *)

Definition PRINT_PLACES_AFTER_DECIMAL : Z := 2.

(** The welcome text; a newline in a C string is written out here. *)
Definition setupSerialInterface : P unit :=
  Serial_println
    (String "010" "Welcome to the HPSS, the Hot Plate Solder System for Arduino") ;;;
  Serial_println
    (String "010" "Based on the BBCC, the Bare Bones Coffee Controller for Arduino") ;;;
  Serial_println "Send back one or more characters to setup the controller." ;;;
  Serial_println
    "If this is your initial run, please enter 'R' to Reset the EEPROM." ;;;
  Serial_println "Enter '?' for help.  Here's to a great cup!".

Definition printHelp : P unit :=
  Serial_println "Send these characters for control:" ;;;
  Serial_println "<space> : print status now" ;;;
  Serial_println "u : toggle periodic status update" ;;;
  Serial_println "g : toggle update style between human and graphing mode" ;;;
  Serial_println "R : reset/initialize PID gain values" ;;;
  Serial_println "b : print PID debug values" ;;;
  Serial_println "? : print help" ;;;
  Serial_println "+/- : adjust delta by a factor of ten" ;;;
  Serial_println "P/p : up/down adjust p gain by delta" ;;;
  Serial_println "I/i : up/down adjust i gain by delta" ;;;
  Serial_println "D/d : up/down adjust d gain by delta" ;;;
  Serial_println "T/t : up/down adjust set temp by delta".

Definition printStatus : P unit :=
  Serial_print " SET TEMP:" ;;;
  t <- lift getTargetTemp ;;;
  callPrintFloat t PRINT_PLACES_AFTER_DECIMAL ;;;
  Serial_print ", CUR TEMP:" ;;;
  t <- lift getLastTemp ;;;
  callPrintFloat t PRINT_PLACES_AFTER_DECIMAL ;;;
  Serial_print ", GAINS p:" ;;;
  g <- lift getP ;;;
  callPrintFloat g PRINT_PLACES_AFTER_DECIMAL ;;;
  Serial_print " i:" ;;;
  g <- lift getI ;;;
  callPrintFloat g PRINT_PLACES_AFTER_DECIMAL ;;;
  Serial_print " d:" ;;;
  g <- lift getD ;;;
  callPrintFloat g PRINT_PLACES_AFTER_DECIMAL ;;;
  Serial_print ", Delta: " ;;;
  d <- lift (gets (fun w => delta (serial w))) ;;;
  callPrintFloat d PRINT_PLACES_AFTER_DECIMAL ;;;
  Serial_print ", Power: " ;;;
  h <- lift getHeatCycles ;;;
  callPrintFloat h 0 ;;;
  Serial_print CRLF.

Definition printStatusForGraph : P unit :=
  t <- lift getTargetTemp ;;;
  callPrintFloat t PRINT_PLACES_AFTER_DECIMAL ;;;
  Serial_print ", " ;;;
  t <- lift getLastTemp ;;;
  callPrintFloat t PRINT_PLACES_AFTER_DECIMAL ;;;
  Serial_print ", " ;;;
  g <- lift getP ;;;
  callPrintFloat g PRINT_PLACES_AFTER_DECIMAL ;;;
  Serial_print ", " ;;;
  g <- lift getI ;;;
  callPrintFloat g PRINT_PLACES_AFTER_DECIMAL ;;;
  Serial_print ", " ;;;
  g <- lift getD ;;;
  callPrintFloat g PRINT_PLACES_AFTER_DECIMAL ;;;
  Serial_print ", " ;;;
  h <- lift getHeatCycles ;;;
  callPrintFloat h 0 ;;;
  Serial_newline.

(** The commands that change a setting: the first thirteen [if]s in the body
    of the [while (Serial.available())] loop, for the character [c] read. *)
Definition serial_adjust (c : Z) : M unit :=
  upd_serial (set_incomingByte c) ;;
  when (c =? chr "R")
    (setP f30_0 ;; setI f0_0 ;; setD f0_0 ;; setTargetTemp f200_0) ;;
  when (c =? chr "P")
    (g <- getP ;; d <- gets (fun w => delta (serial w)) ;; setP (g + d)%f32) ;;
  when (c =? chr "p")
    (g <- getP ;; d <- gets (fun w => delta (serial w)) ;; setP (g - d)%f32) ;;
  when (c =? chr "I")
    (g <- getI ;; d <- gets (fun w => delta (serial w)) ;; setI (g + d)%f32) ;;
  when (c =? chr "i")
    (g <- getI ;; d <- gets (fun w => delta (serial w)) ;; setI (g - d)%f32) ;;
  when (c =? chr "D")
    (g <- getD ;; d <- gets (fun w => delta (serial w)) ;; setD (g + d)%f32) ;;
  when (c =? chr "d")
    (g <- getD ;; d <- gets (fun w => delta (serial w)) ;; setD (g - d)%f32) ;;
  when (c =? chr "T")
    (t <- getTargetTemp ;; d <- gets (fun w => delta (serial w)) ;;
     setTargetTemp (t + d)%f32) ;;
  when (c =? chr "t")
    (t <- getTargetTemp ;; d <- gets (fun w => delta (serial w)) ;;
     setTargetTemp (t - d)%f32) ;;
  when (c =? chr "+")
    (upd_serial (fun s => set_delta (delta s * f10_0)%f32 s) ;;
     s <- gets serial ;;
     when (delta s >? MAX_DELTA)%f32 (upd_serial (set_delta MAX_DELTA))) ;;
  when (c =? chr "-")
    (upd_serial (fun s => set_delta (delta s / f10_0)%f32 s) ;;
     s <- gets serial ;;
     when (delta s <? MIN_DELTA)%f32 (upd_serial (set_delta MIN_DELTA))) ;;
  when (c =? chr "u")
    (upd_serial (fun s => set_autoupdate (negb (autoupdate s)) s)) ;;
  when (c =? chr "g")
    (upd_serial (fun s => set_printmode (negb (printmode s)) s)).

(** The whole body of the [while] loop: the settings, then the three
    commands that print. *)
Definition serial_command (c : Z) : P unit :=
  lift (serial_adjust c) ;;;
  pwhen (c =? chr " ") printStatus ;;;
  pwhen (c =? chr "?") printHelp ;;;
  pwhen (c =? chr "b") (printPIDDebugString ;;; Serial_newline).

(** [while (Serial.available())] over the characters received so far. *)
Fixpoint serial_drain (pending : list Z) : P unit :=
  match pending with
  | [] => pret tt
  | c :: rest =>
      lift (modify (set_rx rest)) ;;; serial_command c ;;; serial_drain rest
  end.

Definition updateSerialInterface : P unit :=
  pending <- lift (gets rx) ;;;
  serial_drain pending ;;;
  t <- lift millis ;;;
  s <- lift (gets serial) ;;;
  pwhen (t <? lastUpdateTime s) (lift (upd_serial (set_lastUpdateTime 0))) ;;;
  t <- lift millis ;;;
  s <- lift (gets serial) ;;;
  pwhen (u32 (t - lastUpdateTime s) >? AUTO_PRINT_INTERVAL)
    (lift (upd_serial (fun s =>
       set_lastUpdateTime (u32 (lastUpdateTime s + AUTO_PRINT_INTERVAL)) s)) ;;;
     s <- lift (gets serial) ;;;
     pwhen (autoupdate s)
       (if printmode s then printStatusForGraph else printStatus)).

(** ** Main: setup and loop

    [setupHeater] and [setupTempSensor] configure pins and attach the
    interrupt routine; they touch none of the globals. *)

Definition setup : P unit :=
  lift (setupPID PGAIN_ADR IGAIN_ADR DGAIN_ADR ;;
        t <- readFloat TEMP_SETTING_ADR ;; upd_main (set_targetTemp t) ;;
        now <- millis ;; upd_main (set_lastPIDTime now)) ;;;
  setupSerialInterface ;;;
  lift (now <- millis ;; upd_main (set_epoch (now / 1000))).

(** The statements of [loop] after the call of [updateSerialInterface]. *)
Definition loop_control : M unit :=
  updateTempSensor ;;
  now <- millis ;;
  m <- gets main ;;
  when (now <? lastPIDTime m) (upd_main (set_lastPIDTime 0)) ;;
  now <- millis ;;
  m <- gets main ;;
  when (u32 (now - lastPIDTime m) >? PID_UPDATE_INTERVAL)
    (upd_main (fun m =>
       set_lastPIDTime (u32 (lastPIDTime m + PID_UPDATE_INTERVAL)) m) ;;
     target <- gets (fun w => targetTemp (main w)) ;;
     cur <- getFreshTemp ;;
     power <- updatePID target cur ;;
     upd_main (set_heatPower power) ;;
     setHeatPowerPercentage power) ;;
  s <- gets sampler ;;
  when (consectutive_timeouts s >? 20)
    (setHeatPowerPercentage (F32.of_Z 0)) ;;
  updateHeater.

Definition loop : P unit :=
  lift (now <- millis ;; upd_main (set_epoch (now / 1000))) ;;;
  updateSerialInterface ;;;
  lift loop_control.

(** [n] iterations of [loop]. *)
Fixpoint loops (n : nat) : P unit :=
  match n with
  | O => pret tt
  | S n' => loop ;;; loops n'
  end.

(** The globals as the C start-up code initialises them. *)
Definition boot (rom : Z -> float32) (input : list Z) (clk : nat -> Z) : World :=
  {| pid := {| iState := f0_0; lastTemp := f0_0; pgain := f0_0;
               igain := f0_0; dgain := f0_0; pTerm := f0_0; iTerm := f0_0;
               dTerm := f0_0; pgainAddress := 0; igainAddress := 0;
               dgainAddress := 0 |};
     heater := {| heatcycles := f0_0; heaterState := false;
                  heatCurrentTime := 0; heatLastTime := 0; relay := false |};
     serial := {| incomingByte := 0; delta := f1_0; autoupdate := false;
                  printmode := false; lastUpdateTime := 0 |};
     dec := {| nbits := 0; hexbyte := 0; read_byte := 0; byte_ready := 0;
               message := [0; 0; 0; 0]; nbytes := 0; message_waiting := 0 |};
     sampler := {| last_time := 0; consectutive_timeouts := 0;
                   temp := f127_0_neg; ambient := f0_0; tcSum := f0_0;
                   latestReading := f0_0; readCount := 0 |};
     main := {| targetTemp := f0_0; heatPower := f0_0; lastPIDTime := 0;
                epoch := 0 |};
     eeprom := rom; rx := input; clock := clk; reads := 0 |}.

(** * Definitions used to state the properties *)

Definition signed_as (sx : bool) (x : float32) : Prop :=
  match x with
  | S754_zero s | S754_infinity s | S754_finite s _ _ => s = sx
  | S754_nan => False
  end.

Definition windup_clamp (W x : float32) : float32 :=
  if F32.ltb W x then W else if F32.ltb x (F32.opp W) then F32.opp W else x.


Definition heater_step (now : Z) (h : Heater) : Heater :=
  let start := (u32 (now - heatLastTime h) >=? 1000) || (heatLastTime h >? now) in
  let h1 := set_heatCurrentTime now h in
  let h2 := if start
            then set_heatLastTime now (set_heaterState true (set_relay true h1))
            else h1 in
  if (F32.of_Z (u32 (now - heatLastTime h2)) >=? heatcycles h)%f32
  then set_heaterState false (set_relay false h2) else h2.


Fixpoint updatePIDs (inputs : list (float32 * float32)) : M unit :=
  match inputs with
  | [] => ret tt
  | (targetTemp, curTemp) :: rest =>
      updatePID targetTemp curTemp ;; updatePIDs rest
  end.

Definition windup_bounded (p : PID) : bool :=
  let W := (WINDUP_GUARD_GAIN / igain p)%f32 in
  (- W <=? iState p)%f32 && (iState p <=? W)%f32.

Definition finite_pair (tc : float32 * float32) : Prop :=
  F32.is_finite (fst tc) = true /\ F32.is_finite (snd tc) = true.

Definition pid_demo (ig i0 : float32) : World :=
  let w := boot (fun _ => F32.nan) [] (fun _ => 0) in
  set_pid (set_iState i0 (set_igain ig (pid w))) w.

Definition sensor_demo (msg : list Z) (clk : nat -> Z) : World :=
  let w := boot (fun _ => F32.nan) [] clk in
  set_dec (set_message_waiting 1 (set_message msg (dec w))) w.

Definition decoder_reset : Decoder :=
  {| nbits := 0; hexbyte := 0; read_byte := 0; byte_ready := 0;
     message := [0; 0; 0; 0]; nbytes := 0; message_waiting := 0 |}.

(** The reading returned by the [k]-th coming call of [millis()]. *)
Definition poll_time (w : World) (k : nat) : Z := u32 (clock w (reads w + k)).

(** After a poll: the window start is not in the future, less than a second
    has elapsed in the window, and the output is high exactly while fewer
    than [on_ms] milliseconds of the window have elapsed. *)
Definition heater_inv (on_ms : Z) (h : Heater) : Prop :=
  0 <= heatLastTime h <= heatCurrentTime h /\
  heatCurrentTime h < 4294967296 /\
  heatCurrentTime h - heatLastTime h < 1000 /\
  heaterState h = (heatCurrentTime h - heatLastTime h <? on_ms) /\
  relay h = heaterState h.

Definition heater_demo (ms : Z) (clk : nat -> Z) : World :=
  exec (setHeatPowerPercentage (F32.of_Z ms)) (boot (fun _ => F32.nan) [] clk).

(** A window opened 500 ms before the counter wraps, polled every
    millisecond. *)
Definition wrap_clock (k : nat) : Z := 4294966796 + Z.of_nat k.

(** [|x - centi/100| < 1/100000] for a finite [x = num * 2^e], [e <= 0]. *)
Definition within_1e5_of (x : float32) (centi : Z) : Prop :=
  F32.is_finite x = true /\ F32.exact_exp x <= 0 /\
  Z.abs (100 * F32.exact_num x - centi * 2 ^ (- F32.exact_exp x)) * 1000
    < 2 ^ (- F32.exact_exp x).

(** [n] successive calls of [updateHeater]. *)
Fixpoint updateHeaters (n : nat) : M unit :=
  match n with
  | O => ret tt
  | S n' => updateHeater ;; updateHeaters n'
  end.

(** A machine that has already counted [c] consecutive sensor timeouts. *)
Definition timeout_demo (c : Z) : World :=
  let w := boot (fun _ => F32.nan) [] (fun _ => 0) in
  set_sampler (set_consectutive_timeouts c (sampler w)) w.

(** The globals and the output of a run that returns. *)
Definition state_after {A : Type} (m : P A) (fuel : nat) (w : World) : World :=
  match m fuel w with Done (_, w', _) => w' | _ => w end.
Definition output_of {A : Type} (m : P A) (fuel : nat) (w : World)
    : list token :=
  match m fuel w with Done (_, _, out) => out | _ => [] end.

(** An EEPROM holding the gains 30, 0, 0 and a target of 200 degrees. *)
Definition tuned_rom (a : Z) : float32 :=
  if a =? PGAIN_ADR then f30_0
  else if a =? TEMP_SETTING_ADR then f200_0 else f0_0.

(** A controller started on [tuned_rom] whose sensor never answers: a status
    line is asked for at once, and successive readings of the millisecond
    counter are 200 ms apart. *)
Definition silent_sensor : World :=
  state_after setup 40 (boot tuned_rom [chr " "] (fun k => 200 * Z.of_nat k)).

(** After a poll, for any stored power: as [heater_inv], with the output high
    exactly while the elapsed time, as a float, is below the stored power. *)
Definition heater_duty_inv (h : Heater) : Prop :=
  0 <= heatLastTime h <= heatCurrentTime h /\
  heatCurrentTime h < 4294967296 /\
  heatCurrentTime h - heatLastTime h < 1000 /\
  heaterState h =
    negb (F32.of_Z (heatCurrentTime h - heatLastTime h) >=? heatcycles h)%f32 /\
  relay h = heaterState h.

(** One bit shifted into the 8-bit accumulator. *)
Definition shift_in (h : Z) (v : bool) : Z :=
  u8 (Z.lor (Z.shiftl h 1) (if v then 1 else 0)).

(** What [readBit] does with a completed byte [x] (its [nbits == 8] branch). *)
Definition byte_done (x : Z) (d : Decoder) : option Decoder :=
  let d :=
    if byte_ready d =? 0 then set_byte_ready 1 (set_read_byte x d) else d in
  let r :=
    if x =? 0xd then Some (set_message_waiting 1 (set_nbytes 0 d))
    else if message_waiting d =? 0 then
      let stored :=
        if nbytes d <? 4 then
          option_map (fun m => set_message m d)
                     (store_message (nbytes d) x (message d))
        else Some d in
      option_map (fun d => set_nbytes (s16 (nbytes d + 1)) d) stored
    else Some d in
  option_map (fun d => set_nbits 0 (set_hexbyte 0 d)) r.

(** Between two bytes: bit counter and accumulator are clear. *)
Definition between_bytes (d : Decoder) : Prop := nbits d = 0 /\ hexbyte d = 0.

(** Waiting for the first byte of a frame, nothing pending. *)
Definition idle (d : Decoder) : Prop :=
  between_bytes d /\ nbytes d = 0 /\ message_waiting d = 0 /\
  length (message d) = 4%nat.

Definition is_byte (b : Z) : Prop := 0 <= b < 256.

(** The edges of a whole frame: the bytes, then the terminator. *)
Definition frame_bits (bytes : list Z) : list bool :=
  flat_map bits_of_byte bytes ++ bits_of_byte 0xd.

Definition data_byte (b : Z) : Prop := is_byte b /\ b <> 0xd.

(** [message[1]<<8 | message[2]] as the 16-bit [int] the code computes. *)
Definition raw16 (hi lo : Z) : Z := s16 (Z.lor (Z.shiftl hi 8) lo).

(** An action keeps a property of the globals. *)
Definition preserves {A : Type} (Q : World -> Prop) (m : M A) : Prop :=
  forall w, Q w -> Q (exec m w).

(** The same for code that prints: whenever it returns. *)
Definition preservesP {A : Type} (Q : World -> Prop) (m : P A) : Prop :=
  forall fuel w a w' out, m fuel w = Done (a, w', out) -> Q w -> Q w'.

(** The EEPROM slots mirror the tunables, at the addresses [setup] installs. *)
Definition persisted (w : World) : Prop :=
  pgainAddress (pid w) = PGAIN_ADR /\
  igainAddress (pid w) = IGAIN_ADR /\
  dgainAddress (pid w) = DGAIN_ADR /\
  eeprom w PGAIN_ADR = pgain (pid w) /\
  eeprom w IGAIN_ADR = igain (pid w) /\
  eeprom w DGAIN_ADR = dgain (pid w) /\
  eeprom w TEMP_SETTING_ADR = targetTemp (main w).

(** What happens between two iterations of [loop]: bytes arrive on the
    serial line, and the interrupt routine, run on the clock edges of the
    sensor, takes the decoder variables from one state to another. *)
Definition event : Type := list Z * (Decoder -> Decoder).

(** A session: the iterations of [loop], each preceded by an event. *)
Fixpoint session (events : list event) : P unit :=
  match events with
  | [] => pret tt
  | (bytes, isr) :: rest =>
      lift (modify (fun w => set_rx (rx w ++ bytes) w) ;; upd_dec isr) ;;;
      loop ;;;
      session rest
  end.

(** A controller on [tuned_rom] at the bench: successive readings of the
    millisecond counter are 50 ms apart. *)
Definition bench : World := boot tuned_rom [] (fun k => 50 * Z.of_nat k).

(** What an operator types over four iterations of [loop], the sensor
    being silent: raise the gain and ask for the status; widen the step,
    raise the target and ask for help; ask for the debug values and turn the
    periodic status on; then nothing. *)
Definition operator_session : list event :=
  [ ([chr "P"; chr " "], fun d => d);
    ([chr "+"; chr "T"; chr "?"], fun d => d);
    ([chr "b"; chr "u"], fun d => d);
    ([], fun d => d) ].

(** Widening the step three times, then asking for the status. *)
Definition widen_session : list event :=
  [ ([chr "+"; chr "+"; chr "+"; chr " "], fun d => d) ].

(** The step sizes reachable from the initial [delta = 1.0] with ['+'] and
    ['-']. *)
Definition delta_values : list float32 :=
  [ S754_finite false 8388608 (-23);  S754_finite false 10485760 (-20);
    S754_finite false 13421773 (-27); S754_finite false 13107200 (-17);
    S754_finite false 10737418 (-30); S754_finite false 13421772 (-27);
    S754_finite false 16777215 (-24); S754_finite false 10485759 (-20);
    S754_finite false 13107199 (-17); S754_finite false 16777214 (-24);
    S754_finite false 13421771 (-27) ].

Definition f32_same (a b : float32) : bool :=
  match a, b with
  | S754_zero s, S754_zero s' => Bool.eqb s s'
  | S754_infinity s, S754_infinity s' => Bool.eqb s s'
  | S754_nan, S754_nan => true
  | S754_finite s m e, S754_finite s' m' e' =>
      Bool.eqb s s' && Pos.eqb m m' && Z.eqb e e'
  | _, _ => false
  end.

Definition delta_known (d : float32) : bool := existsb (f32_same d) delta_values.

Definition delta_ok (w : World) : Prop := delta_known (delta (serial w)) = true.

Definition power_in_range (w : World) : Prop :=
  F32.is_nan (heatcycles (heater w)) = true \/
  ((f0_0 <=? heatcycles (heater w))%f32 = true /\
   (heatcycles (heater w) <=? f1000_0)%f32 = true).

(** Nothing pending on the serial line, the periodic status off, a NaN
    proportional gain, and a stored power that is not a positive number. *)
Definition nan_gain_inv (w : World) : Prop :=
  rx w = [] /\ F32.is_nan (pgain (pid w)) = true /\
  (heatcycles (heater w) = f0_0 \/ F32.is_nan (heatcycles (heater w)) = true) /\
  autoupdate (serial w) = false.

(** Code that prints returns from every state with property [Q], however
    few rounds its loops are allowed, and keeps [Q]. *)
Definition returnsP {A : Type} (Q : World -> Prop) (m : P A) : Prop :=
  forall fuel w, Q w ->
  exists a w' out, m fuel w = Done (a, w', out) /\ Q w'.

(** Whether a run came back. *)
Definition returned {A : Type} (o : outcome A) : bool :=
  match o with Done _ => true | _ => false end.

Definition silent (e : event) : Prop := fst e = [].

Definition is_infinite (x : float32) : bool :=
  match x with S754_infinity _ => true | _ => false end.

(** [tens] after [n] more rounds of the loop. *)
Fixpoint tens_after (n : nat) (tens : float32) : float32 :=
  match n with
  | O => tens
  | S n' => tens_after n' (tens * f10_0)%f32
  end.

(** The decimal digits of a natural number, most significant first. *)
Fixpoint digits_fuel (fuel : nat) (n : Z) (acc : list token) : list token :=
  match fuel with
  | O => acc
  | S f =>
      if n <? 10 then Tint n :: acc
      else digits_fuel f (n / 10) (Tint (n mod 10) :: acc)
  end.

Definition decimal (n : Z) : list token := digits_fuel 10 n [].

(** [k/100] written with two decimals, as [-12.34] for [k = -1234]. *)
Definition shown2 (k : Z) : list token :=
  (if k <? 0 then [Tchar "-"%char] else []) ++
  decimal (Z.abs k / 100) ++
  [Tchar "."%char; Tint ((Z.abs k / 10) mod 10); Tint (Z.abs k mod 10)].

Definition token_eqb (a b : token) : bool :=
  match a, b with
  | Tstr s, Tstr s' => String.eqb s s'
  | Tint x, Tint y => x =? y
  | Tchar c, Tchar c' => Ascii.eqb c c'
  | _, _ => false
  end.

Fixpoint tokens_eqb (a b : list token) : bool :=
  match a, b with
  | [], [] => true
  | x :: a', y :: b' => token_eqb x y && tokens_eqb a' b'
  | _, _ => false
  end.

Definition prints (value : float32) (places : Z) (expected : list token) : bool :=
  match printFloat 40 value places with
  | Done out => tokens_eqb out expected
  | _ => false
  end.

(** The integers from [lo] to [hi]. *)
Definition zrange (lo hi : Z) : list Z :=
  map (fun i => lo + Z.of_nat i) (seq 0 (Z.to_nat (hi - lo + 1))).

(** * Properties *)

Lemma shr_1_nonneg mrs : 0 <= shr_m mrs -> 0 <= shr_m (shr_1 mrs).
Proof.
  destruct mrs as [m r s]; simpl.
  destruct m as [|p|p]; simpl; try lia; destruct p; simpl; lia.
Qed.

Lemma iter_shr_1_nonneg p : forall mrs,
  0 <= shr_m mrs -> 0 <= shr_m (iter_pos shr_1 p mrs).
Proof.
  induction p as [p IH|p IH|]; intros mrs H; simpl.
  - apply IH, IH, shr_1_nonneg, H.
  - apply IH, IH, H.
  - apply shr_1_nonneg, H.
Qed.

Lemma shr_nonneg mrs e n : 0 <= shr_m mrs -> 0 <= shr_m (fst (shr mrs e n)).
Proof.
  intros H. destruct n; simpl; auto using iter_shr_1_nonneg.
Qed.

Lemma shr_record_of_loc_m m l : shr_m (shr_record_of_loc m l) = m.
Proof. destruct l as [|[]]; reflexivity. Qed.

Lemma shr_fexp_nonneg pr em m e l :
  0 <= m -> 0 <= shr_m (fst (shr_fexp pr em m e l)).
Proof.
  intros H. unfold shr_fexp. apply shr_nonneg.
  rewrite shr_record_of_loc_m. exact H.
Qed.

Lemma round_nearest_even_nonneg m l : 0 <= m -> 0 <= round_nearest_even m l.
Proof.
  intros H. destruct l as [|[]]; simpl; try lia.
  destruct (Z.even m); lia.
Qed.

Lemma binary_round_aux_signed pr em sx mx ex lx :
  0 <= mx -> signed_as sx (binary_round_aux pr em sx mx ex lx).
Proof.
  intros H. unfold binary_round_aux.
  pose proof (shr_fexp_nonneg pr em mx ex lx H) as H1.
  destruct (shr_fexp pr em mx ex lx) as [mrs' e']. simpl in H1.
  pose proof (shr_fexp_nonneg pr em
                (round_nearest_even (shr_m mrs') (loc_of_shr_record mrs'))
                e' loc_Exact (round_nearest_even_nonneg _ _ H1)) as H2.
  destruct (shr_fexp pr em _ e' loc_Exact) as [mrs'' e'']. simpl in H2.
  destruct (shr_m mrs'') as [|m|m]; simpl; try reflexivity; try lia.
  destruct (e'' <=? em - pr); reflexivity.
Qed.

Lemma binary_round_signed pr em sx mx ex :
  signed_as sx (binary_round pr em sx mx ex).
Proof.
  unfold binary_round.
  destruct (shl_align mx ex _) as [mz ez].
  apply binary_round_aux_signed. lia.
Qed.

Lemma binary_normalize_not_nan pr em m e sz :
  F32.is_nan (binary_normalize pr em m e sz) = false.
Proof.
  destruct m as [|p|p]; simpl; try reflexivity.
  - pose proof (binary_round_signed pr em false p e) as H.
    destruct (binary_round pr em false p e); simpl in *; tauto.
  - pose proof (binary_round_signed pr em true p e) as H.
    destruct (binary_round pr em true p e); simpl in *; tauto.
Qed.

Lemma of_Z_nonneg n : 0 <= n -> F32.nonneg (F32.of_Z n) = true.
Proof.
  intros H. unfold F32.of_Z. destruct n as [|p|p]; simpl; try reflexivity; try lia.
  pose proof (binary_round_signed F32.prec F32.emax false p 0) as H1.
  destruct (binary_round F32.prec F32.emax false p 0); simpl in *; subst; tauto.
Qed.

Lemma div_core_nonneg pr em m1 e1 m2 e2 :
  0 <= fst (fst (SFdiv_core_binary pr em (Z.pos m1) e1 (Z.pos m2) e2)).
Proof.
  unfold SFdiv_core_binary.
  set (s := _ - _ - Z.min _ _).
  set (m' := match s with Z0 => _ | Z.pos _ => _ | Z.neg _ => _ end).
  assert (Hm : 0 <= m').
  { subst m'. destruct s; try lia. apply Z.shiftl_nonneg. lia. }
  pose proof (Z_div_mod m' (Z.pos m2) eq_refl) as D.
  destruct (Z.div_eucl m' (Z.pos m2)) as [q r]. simpl.
  destruct D as [D1 D2]. nia.
Qed.

Lemma div_signed x y :
  F32.nonneg x = true -> F32.nonneg y = true ->
  F32.is_nan (F32.div x y) = false -> F32.nonneg (F32.div x y) = true.
Proof.
  unfold F32.div.
  destruct x as [sx|sx| |sx mx ex], y as [sy|sy| |sy my ey]; simpl;
    intros Hx Hy Hn; try discriminate;
    try (apply negb_true_iff in Hx; apply negb_true_iff in Hy; subst; reflexivity).
  apply negb_true_iff in Hx; apply negb_true_iff in Hy; subst. simpl.
  pose proof (div_core_nonneg F32.prec F32.emax mx ex my ey) as H.
  destruct (SFdiv_core_binary _ _ _ _ _ _) as [[mz ez] lz]. simpl in H.
  pose proof (binary_round_aux_signed F32.prec F32.emax false mz ez lz H) as S.
  destruct (binary_round_aux _ _ _ _ _ _); simpl in *; subst; tauto.
Qed.



Lemma compare_antisym x y :
  SFcompare x y = option_map CompOpp (SFcompare y x).
Proof.
  destruct x as [sx|sx| |sx mx ex], y as [sy|sy| |sy my ey]; simpl;
    try reflexivity;
    try (destruct sx; reflexivity); try (destruct sy; reflexivity);
    try (destruct sx, sy; reflexivity).
  destruct sx, sy; simpl; try reflexivity;
    rewrite (Z.compare_antisym ey ex);
    destruct (ey ?= ex) eqn:E; simpl; try reflexivity;
    rewrite (Pos.compare_cont_antisym my mx Eq); simpl;
    try rewrite CompOpp_involutive; reflexivity.
Qed.

Lemma compare_refl x : F32.is_nan x = false -> SFcompare x x = Some Eq.
Proof.
  destruct x as [s|s| |s m e]; simpl; intros H; try discriminate;
    try (destruct s; reflexivity).
  destruct s; rewrite Z.compare_refl;
  change (Pos.compare_cont Eq m m) with (Pos.compare m m);
  rewrite Pos.compare_refl; reflexivity.
Qed.

Lemma leb_refl x : F32.is_nan x = false -> F32.leb x x = true.
Proof. intros H. unfold F32.leb, SFleb. rewrite compare_refl by exact H. reflexivity. Qed.

Lemma nonneg_not_nan x : F32.nonneg x = true -> F32.is_nan x = false.
Proof. destruct x; simpl; congruence. Qed.

Lemma is_nan_opp x : F32.is_nan (F32.opp x) = F32.is_nan x.
Proof. destruct x; reflexivity. Qed.

Lemma leb_opp_nonneg x : F32.nonneg x = true -> F32.leb (F32.opp x) x = true.
Proof.
  destruct x as [s|s| |s m e]; simpl; intros H; try discriminate;
    apply negb_true_iff in H; subst; reflexivity.
Qed.

(** [x > y] false for comparable numbers means [x <= y]. *)
Lemma not_gt_leb x y :
  F32.is_nan x = false -> F32.is_nan y = false ->
  F32.ltb y x = false -> F32.leb x y = true.
Proof.
  unfold F32.ltb, F32.leb, SFltb, SFleb. intros Hx Hy.
  rewrite (compare_antisym x y).
  destruct (SFcompare y x) as [[| |]|] eqn:E; simpl; try congruence.
  destruct x, y; simpl in *; try discriminate.
Qed.

Lemma windup_clamp_bounds W x :
  F32.nonneg W = true -> F32.is_nan x = false ->
  F32.leb (F32.opp W) (windup_clamp W x) = true /\
  F32.leb (windup_clamp W x) W = true.
Proof.
  intros HW Hx. pose proof (nonneg_not_nan W HW) as HnW.
  assert (HnO : F32.is_nan (F32.opp W) = false) by (rewrite is_nan_opp; exact HnW).
  unfold windup_clamp.
  destruct (F32.ltb W x) eqn:E1.
  - split; [apply leb_opp_nonneg, HW | apply leb_refl, HnW].
  - destruct (F32.ltb x (F32.opp W)) eqn:E2.
    + split; [apply leb_refl, HnO | apply leb_opp_nonneg, HW].
    + split; [apply not_gt_leb; assumption | apply not_gt_leb; assumption].
Qed.

Lemma windup_guard_nonneg g :
  F32.ltb F32.zero g = true -> F32.nonneg (F32.div WINDUP_GUARD_GAIN g) = true.
Proof.
  intros H. apply div_signed.
  - reflexivity.
  - destruct g as [s|s| |s m e]; simpl in *; try discriminate;
      destruct s; simpl in *; try discriminate; reflexivity.
  - destruct g as [s|s| |s m e]; simpl in *; try discriminate; try reflexivity.
    unfold F32.div, WINDUP_GUARD_GAIN. simpl SFdiv.
    pose proof (div_core_nonneg F32.prec F32.emax 13107200 (-17) m e) as H1.
    destruct (SFdiv_core_binary _ _ _ _ _ _) as [[mz ez] lz]. simpl in H1.
    pose proof (binary_round_aux_signed F32.prec F32.emax (xorb false s) mz ez lz H1) as S.
    destruct (binary_round_aux _ _ _ _ _ _); simpl in *; tauto.
Qed.

(* add/sub of finite numbers *)
Lemma sub_finite_not_nan x y :
  F32.is_finite x = true -> F32.is_finite y = true -> F32.is_nan (F32.sub x y) = false.
Proof.
  unfold F32.sub.
  destruct x as [sx|sx| |sx mx ex], y as [sy|sy| |sy my ey]; simpl; intros; try discriminate;
   try reflexivity.
  - destruct sx, sy; reflexivity.
  - apply binary_normalize_not_nan.
Qed.

Lemma add_finite_not_nan x y :
  F32.is_finite x = true -> F32.is_nan y = false -> F32.is_nan (F32.add x y) = false.
Proof.
  unfold F32.add.
  destruct x as [sx|sx| |sx mx ex], y as [sy|sy| |sy my ey]; simpl; intros; try discriminate;
   try reflexivity.
  - destruct sx, sy; reflexivity.
  - apply binary_normalize_not_nan.
Qed.

Lemma bounded_finite W x :
  F32.is_finite W = true ->
  F32.leb (F32.opp W) x = true -> F32.leb x W = true -> F32.is_finite x = true.
Proof.
  destruct W as [s|s| |s m e], x as [sx|sx| |sx mx ex]; simpl; intros; try discriminate; try reflexivity.
  - destruct sx; discriminate.
  - destruct sx; discriminate.
Qed.



Lemma exec_bind {A B} (m : M A) (k : A -> M B) w :
  exec (bind m k) w = exec (k (eval m w)) (exec m w).
Proof. reflexivity. Qed.

Lemma eval_bind {A B} (m : M A) (k : A -> M B) w :
  eval (bind m k) w = eval (k (eval m w)) (exec m w).
Proof. reflexivity. Qed.

Lemma updatePID_pid targetTemp curTemp w :
  pid (exec (updatePID targetTemp curTemp) w) =
  let p := pid w in
  let error := (targetTemp - curTemp)%f32 in
  let i := windup_clamp (WINDUP_GUARD_GAIN / igain p)%f32 (iState p + error)%f32 in
  set_lastTemp curTemp
    (set_dTerm (dgain p * (curTemp - lastTemp p))%f32
       (set_iTerm (igain p * i)%f32
          (set_iState i (set_pTerm (pgain p * error)%f32 p)))).
Proof.
  unfold updatePID, exec, bind, gets, upd_pid, modify, windup_clamp, ret. simpl.
  destruct (F32.ltb _ _); simpl; [reflexivity|].
  destruct (F32.ltb _ _); simpl; reflexivity.
Qed.

(** C1. One call of [updatePID] returns [pTerm + iTerm - dTerm] exactly, with
    [pTerm = pgain * (target - current)], [iTerm = igain * iState] for the
    accumulator after the clamp, and [dTerm = dgain * (current - lastTemp)]
    for the previous [lastTemp]; the derivative term is subtracted and
    [lastTemp] becomes the current temperature. *)
Theorem updatePID_formula (w : World) (targetTemp curTemp : float32) :
  let p := pid w in
  let p' := pid (exec (updatePID targetTemp curTemp) w) in
  eval (updatePID targetTemp curTemp) w = (pTerm p' + iTerm p' - dTerm p')%f32
  /\ pTerm p' = (pgain p * (targetTemp - curTemp))%f32
  /\ iState p' = windup_clamp (WINDUP_GUARD_GAIN / igain p)%f32
                              (iState p + (targetTemp - curTemp))%f32
  /\ iTerm p' = (igain p * iState p')%f32
  /\ dTerm p' = (dgain p * (curTemp - lastTemp p))%f32
  /\ lastTemp p' = curTemp.
Proof.
  intros p p'.
  assert (E : eval (updatePID targetTemp curTemp) w = (pTerm p' + iTerm p' - dTerm p')%f32).
  { subst p'. unfold updatePID, exec, eval, bind, gets, upd_pid, modify, ret. simpl.
    destruct (F32.ltb _ _); simpl; [reflexivity|].
    destruct (F32.ltb _ _); simpl; reflexivity. }
  split; [exact E|].
  subst p'. rewrite updatePID_pid. simpl. repeat split; reflexivity.
Qed.


Lemma updateHeater_exec w :
  exec updateHeater w =
  set_heater (heater_step (u32 (clock w (reads w))) (heater w))
             (set_reads (S (reads w)) w).
Proof.
  unfold updateHeater, heater_step, exec, bind, gets, upd_heater, modify, when,
    millis, _turnHeatElementOnOff, ret. simpl.
  destruct (_ || _); simpl; destruct (F32.leb _ _); reflexivity.
Qed.

Lemma leb_zero_nonneg z x :
  F32.eqb z F32.zero = true -> F32.nonneg x = true -> F32.leb z x = true.
Proof.
  destruct z as [s|s| |s m e]; simpl; intros Hz Hx; try discriminate;
    try (destruct s; discriminate).
  destruct x as [sx|sx| |sx mx ex]; simpl in *; try discriminate;
    try reflexivity; apply negb_true_iff in Hx; subst; reflexivity.
Qed.

Lemma u32_range z : 0 <= u32 z < 4294967296.
Proof. unfold u32. apply Z.mod_pos_bound. reflexivity. Qed.

Lemma heater_step_zero now h :
  F32.eqb (heatcycles h) F32.zero = true ->
  heaterState (heater_step now h) = false /\ relay (heater_step now h) = false.
Proof.
  intros Hz. unfold heater_step.
  match goal with
  | |- context [F32.leb ?a ?b] =>
      rewrite (leb_zero_nonneg a b Hz) by (apply of_Z_nonneg, u32_range)
  end.
  split; reflexivity.
Qed.

(** C10. When the stored heat power is zero, every call of [updateHeater]
    returns with the heater output off, for every clock value and previous
    state: at a window boundary the output is raised and then lowered again
    by the off-check in the same call. *)
Theorem updateHeater_zero_power_off (w : World) :
  F32.eqb (heatcycles (heater w)) F32.zero = true ->
  heaterState (heater (exec updateHeater w)) = false /\
  relay (heater (exec updateHeater w)) = false.
Proof.
  intros Hz. rewrite updateHeater_exec. simpl. apply heater_step_zero, Hz.
Qed.

Lemma updateHeater_zero_power_off_witness :
  heaterState (heater (exec updateHeater (heater_demo 0 (fun _ => 5000)))) = false /\
  relay (heater (exec updateHeater (heater_demo 0 (fun _ => 5000)))) = false.
Proof. apply updateHeater_zero_power_off. reflexivity. Defined.

Lemma setHeatPowerPercentage_exec p w :
  exec (setHeatPowerPercentage p) w =
  set_heater (set_heatcycles
    (let q := if (p <=? f0_0)%f32 then f0_0 else p in
     if (q >=? f1000_0)%f32 then f1000_0 else q) (heater w)) w.
Proof. reflexivity. Qed.

Lemma setHeatPowerPercentage_nonpos p w :
  (p <=? f0_0)%f32 = true ->
  heatcycles (heater (exec (setHeatPowerPercentage p) w)) = F32.zero.
Proof.
  intros H. rewrite setHeatPowerPercentage_exec. simpl. rewrite H. reflexivity.
Qed.

Lemma heater_step_heatcycles now h : heatcycles (heater_step now h) = heatcycles h.
Proof.
  unfold heater_step. destruct (_ || _); simpl; destruct (F32.leb _ _); reflexivity.
Qed.

Lemma exec_bind_ex {A B} (m : M A) (k : A -> M B) (F : World -> World) w :
  (forall a w1, exists w3, exec (k a) w1 = F w3) ->
  exists w3, exec (bind m k) w = F w3.
Proof. intros H. rewrite exec_bind. apply H. Qed.

Lemma loop_tail w :
  exists w3,
    exec loop_control w =
    exec updateHeater
      (exec (when (consectutive_timeouts (sampler w3) >? 20)
                  (setHeatPowerPercentage (F32.of_Z 0))) w3).
Proof.
  unfold loop_control.
  do 7 (apply (exec_bind_ex _ _ (fun w3 => exec updateHeater
      (exec (when (consectutive_timeouts (sampler w3) >? 20)
                  (setHeatPowerPercentage (F32.of_Z 0))) w3))); intros ? ?).
  eexists. reflexivity.
Qed.


Lemma updatePID_igain t c w : igain (pid (exec (updatePID t c) w)) = igain (pid w).
Proof. rewrite updatePID_pid. reflexivity. Qed.

Lemma updatePID_iState t c w :
  iState (pid (exec (updatePID t c) w)) =
  windup_clamp (WINDUP_GUARD_GAIN / igain (pid w))%f32
               (iState (pid w) + (t - c))%f32.
Proof. rewrite updatePID_pid. reflexivity. Qed.

(** One call: when the gain is positive and the accumulated sum is a number,
    the accumulator ends inside the windup band. *)
Lemma updatePID_windup_step t c w :
  F32.ltb F32.zero (igain (pid w)) = true ->
  F32.is_nan (iState (pid w) + (t - c))%f32 = false ->
  windup_bounded (pid (exec (updatePID t c) w)) = true.
Proof.
  intros Hg Hn. unfold windup_bounded.
  rewrite updatePID_igain, updatePID_iState.
  destruct (windup_clamp_bounds _ _ (windup_guard_nonneg _ Hg) Hn) as [H1 H2].
  cbv zeta. rewrite H1, H2. reflexivity.
Qed.

Lemma updatePID_finite_step t c w :
  F32.ltb F32.zero (igain (pid w)) = true ->
  F32.is_finite (WINDUP_GUARD_GAIN / igain (pid w))%f32 = true ->
  F32.is_finite (iState (pid w)) = true ->
  finite_pair (t, c) ->
  windup_bounded (pid (exec (updatePID t c) w)) = true /\
  F32.is_finite (iState (pid (exec (updatePID t c) w))) = true.
Proof.
  intros Hg HW Hi [Ht Hc]. simpl in Ht, Hc.
  assert (Hn : F32.is_nan (iState (pid w) + (t - c))%f32 = false).
  { apply add_finite_not_nan; [exact Hi|]. apply sub_finite_not_nan; assumption. }
  pose proof (updatePID_windup_step t c w Hg Hn) as Hb.
  split; [exact Hb|].
  unfold windup_bounded in Hb. rewrite updatePID_igain in Hb. cbv zeta in Hb.
  apply andb_true_iff in Hb. destruct Hb as [H1 H2].
  exact (bounded_finite _ _ HW H1 H2).
Qed.

Lemma updatePIDs_finite inputs : forall w,
  F32.ltb F32.zero (igain (pid w)) = true ->
  F32.is_finite (WINDUP_GUARD_GAIN / igain (pid w))%f32 = true ->
  F32.is_finite (iState (pid w)) = true ->
  Forall finite_pair inputs ->
  igain (pid (exec (updatePIDs inputs) w)) = igain (pid w) /\
  F32.is_finite (iState (pid (exec (updatePIDs inputs) w))) = true /\
  (inputs <> [] -> windup_bounded (pid (exec (updatePIDs inputs) w)) = true).
Proof.
  induction inputs as [|[t c] rest IH]; intros w Hg HW Hi Hall.
  - simpl. split; [reflexivity|]. split; [exact Hi|]. congruence.
  - inversion Hall as [|? ? Hh Ht]; subst.
    destruct (updatePID_finite_step t c w Hg HW Hi Hh) as [Hb Hf].
    simpl updatePIDs. rewrite exec_bind.
    set (w1 := exec (updatePID t c) w) in *.
    assert (Eg : igain (pid w1) = igain (pid w)) by apply updatePID_igain.
    destruct (IH w1) as [I1 [I2 I3]]; try rewrite Eg; auto.
    split; [congruence|]. split; [exact I2|].
    intros _. destruct rest as [|x rest'].
    + exact Hb.
    + apply I3. discriminate.
Qed.

(** C2, amended. For a positive integral gain whose windup guard [100.0 /
    igain] is finite, a finite initial accumulator and finite target and
    current temperatures, the accumulator lies in [-(100.0/igain),
    +(100.0/igain)] after each call of any sequence of [updatePID] calls. *)
Theorem updatePID_windup_invariant
    (w : World) (inputs : list (float32 * float32)) (k : nat) :
  F32.ltb F32.zero (igain (pid w)) = true ->
  F32.is_finite (WINDUP_GUARD_GAIN / igain (pid w))%f32 = true ->
  F32.is_finite (iState (pid w)) = true ->
  Forall finite_pair inputs ->
  (0 < k <= length inputs)%nat ->
  windup_bounded (pid (exec (updatePIDs (firstn k inputs)) w)) = true.
Proof.
  intros Hg HW Hi Hall Hk.
  apply (updatePIDs_finite (firstn k inputs) w Hg HW Hi).
  - rewrite <- (firstn_skipn k inputs) in Hall.
    apply Forall_app in Hall. exact (proj1 Hall).
  - destruct k; [lia|]. destruct inputs; simpl in *; [lia | discriminate].
Qed.

Lemma updatePID_windup_invariant_witness :
  windup_bounded
    (pid (exec (updatePIDs (firstn 2 [(f200_0, f30_0); (f200_0, f30_0)]))
               (pid_demo f1_0 f0_0))) = true.
Proof.
  apply updatePID_windup_invariant.
  - reflexivity.
  - reflexivity.
  - reflexivity.
  - repeat constructor.
  - simpl. lia.
Defined.

(** C2 as stated fails: [igain = 1.0 > 0], but with a NaN target (what
    [readFloat] returns from an erased EEPROM) the accumulator is NaN after
    the call, and NaN is neither [>= -100] nor [<= 100]. *)
Lemma updatePID_windup_nan_target :
  let w := pid_demo f1_0 f0_0 in
  F32.ltb F32.zero (igain (pid w)) = true /\
  windup_bounded (pid (exec (updatePID F32.nan f30_0) w)) = false.
Proof. vm_compute. split; reflexivity. Qed.

(** Why the guard must be finite: with the smallest normal gain [2^-126] the
    guard overflows to [+infinity]; two calls with finite temperatures drive
    the accumulator to [+infinity] and then to NaN. *)
Example updatePID_windup_guard_overflow :
  let w := pid_demo (S754_finite false 8388608 (-149)) f0_0 in
  let big := S754_finite false 16777215 104 in
  F32.valid big = true /\
  (WINDUP_GUARD_GAIN / igain (pid w))%f32 = S754_infinity false /\
  windup_bounded
    (pid (exec (updatePIDs [(big, (- big)%f32); ((- big)%f32, big)]) w)) = false.
Proof. vm_compute. repeat split; reflexivity. Qed.

(** C3, amended. [updatePID] has no guard on the gain: with [igain = +0.0]
    it still evaluates [WINDUP_GUARD_GAIN / igain], which is [+infinity], and
    nothing compares above [+infinity] or below [-infinity], so the
    accumulator is left at [iState + error]: the clamp never acts. *)
Theorem updatePID_zero_igain (w : World) (targetTemp curTemp : float32) :
  igain (pid w) = F32.zero ->
  (WINDUP_GUARD_GAIN / igain (pid w))%f32 = S754_infinity false /\
  iState (pid (exec (updatePID targetTemp curTemp) w)) =
    (iState (pid w) + (targetTemp - curTemp))%f32.
Proof.
  intros Hz. rewrite updatePID_iState, Hz. split; [reflexivity|].
  change (WINDUP_GUARD_GAIN / F32.zero)%f32 with (S754_infinity false).
  unfold windup_clamp.
  destruct (iState (pid w) + (targetTemp - curTemp))%f32 as [s|s| |s m e];
    try reflexivity; destruct s; reflexivity.
Qed.

Lemma updatePID_zero_igain_witness :
  (WINDUP_GUARD_GAIN / igain (pid (pid_demo F32.zero f0_0)))%f32
    = S754_infinity false /\
  iState (pid (exec (updatePID f200_0 f30_0) (pid_demo F32.zero f0_0))) =
    (iState (pid (pid_demo F32.zero f0_0)) + (f200_0 - f30_0))%f32.
Proof. apply updatePID_zero_igain. reflexivity. Defined.

(** C3 as stated fails: [igain = -0.0] is exactly zero ([igain == 0] holds),
    the division is carried out and gives [-infinity], and the clamp is not
    disabled: the accumulator [1.0] is replaced by [-infinity] and the power
    returned is NaN. *)
Lemma updatePID_negative_zero_igain :
  let w := pid_demo (S754_zero true) f0_0 in
  F32.eqb (igain (pid w)) F32.zero = true /\
  (iState (pid w) + (f1_0 - f0_0))%f32 = f1_0 /\
  iState (pid (exec (updatePID f1_0 f0_0) w)) = S754_infinity true /\
  eval (updatePID f1_0 f0_0) w = F32.nan.
Proof. vm_compute. repeat split; reflexivity. Qed.



Ltac unfold_sensor :=
  unfold updateTempSensor, exec, eval, bind, gets, when, modify, millis, ret,
    upd_sampler, upd_dec.

(** C5. With a message waiting, tag [0x4c] sets the object temperature to
    [(message[1]<<8 | message[2]) / 16.0 - 273.15] (the shift-or taken as a
    16-bit [int]) and tag [0x66] sets the ambient temperature the same way;
    the frame [{0x4c,0x10,0x00,0x00}] decodes to the binary32 value of
    [256.0 - 273.15], which is [-8991536 / 2^19], within [0.00001] of
    [-17.15]. *)
Theorem updateTempSensor_decodes (w : World) :
  message_waiting (dec w) = 1 ->
  let msg := message (dec w) in
  let w' := exec updateTempSensor w in
  let t := s16 (Z.lor (Z.shiftl (nth 1 msg 0) 8) (nth 2 msg 0)) in
  (nth 0 msg 0 = 0x4c ->
     temp (sampler w') = (F32.of_Z t / f16_0 - f273_15)%f32 /\
     ambient (sampler w') = ambient (sampler w)) /\
  (nth 0 msg 0 = 0x66 ->
     ambient (sampler w') = (F32.of_Z t / f16_0 - f273_15)%f32 /\
     temp (sampler w') = temp (sampler w)) /\
  (msg = [0x4c; 0x10; 0x00; 0x00] ->
     temp (sampler w') = S754_finite true 8991536 (-19) /\
     within_1e5_of (temp (sampler w')) (-1715)).
Proof.
  intros Hw msg w' t.
  assert (A : nth 0 msg 0 = 0x4c ->
     temp (sampler w') = (F32.of_Z t / f16_0 - f273_15)%f32 /\
     ambient (sampler w') = ambient (sampler w)).
  { intros Htag. subst w' msg t. unfold_sensor. simpl.
    rewrite Hw, Htag. simpl.
    destruct (_ >? 1000); simpl; split; reflexivity. }
  split; [exact A|]. split.
  - intros Htag. subst w' msg t. unfold_sensor. simpl.
    rewrite Hw, Htag. simpl.
    destruct (_ >? 1000); simpl; split; reflexivity.
  - intros Hm. destruct A as [A _]; [rewrite Hm; reflexivity|].
    rewrite A. subst t. rewrite Hm.
    split; [vm_compute; reflexivity|].
    vm_compute. repeat split; congruence.
Qed.

Lemma updateTempSensor_decodes_witness :
  let w := sensor_demo [0x4c; 0x10; 0x00; 0x00] (fun _ => 0) in
  temp (sampler (exec updateTempSensor w)) = S754_finite true 8991536 (-19) /\
  within_1e5_of (temp (sampler (exec updateTempSensor w))) (-1715).
Proof.
  intros w.
  exact (proj2 (proj2 (updateTempSensor_decodes w eq_refl)) eq_refl).
Defined.

(** C9. With a message waiting whose tag is neither [0x4c] nor [0x66], the
    object and ambient temperatures are unchanged and the waiting flag is
    cleared; the time of the last frame, the timeout counter, the flag and
    the clock reads come out the same as for any other message content, a
    valid one included; they are the time just read and [0], unless more than
    1000 ms pass between the first two clock reads of the call. *)
Theorem updateTempSensor_unknown_tag (w : World) :
  message_waiting (dec w) = 1 ->
  nth 0 (message (dec w)) 0 <> 0x4c ->
  nth 0 (message (dec w)) 0 <> 0x66 ->
  let w' := exec updateTempSensor w in
  let t1 := u32 (clock w (reads w)) in
  let t2 := u32 (clock w (S (reads w))) in
  temp (sampler w') = temp (sampler w) /\
  ambient (sampler w') = ambient (sampler w) /\
  message_waiting (dec w') = 0 /\
  (forall msg,
     let v := exec updateTempSensor (set_dec (set_message msg (dec w)) w) in
     last_time (sampler v) = last_time (sampler w') /\
     consectutive_timeouts (sampler v) = consectutive_timeouts (sampler w') /\
     message_waiting (dec v) = message_waiting (dec w') /\
     reads v = reads w') /\
  (u32 (t2 - t1) <= 1000 ->
     last_time (sampler w') = t1 /\ consectutive_timeouts (sampler w') = 0).
Proof.
  intros Hw H4c H66 w' t1 t2.
  apply Z.eqb_neq in H4c. apply Z.eqb_neq in H66.
  subst w' t1 t2. unfold_sensor. simpl. rewrite Hw, H4c, H66. simpl.
  repeat split.
  - destruct (_ >? 1000); reflexivity.
  - destruct (_ >? 1000); reflexivity.
  - destruct (_ >? 1000); reflexivity.
  - destruct (nth 0 msg 0 =? 76); [|destruct (nth 0 msg 0 =? 102)]; simpl;
      destruct (_ >? 1000); reflexivity.
  - destruct (nth 0 msg 0 =? 76); [|destruct (nth 0 msg 0 =? 102)]; simpl;
      destruct (_ >? 1000); reflexivity.
  - destruct (nth 0 msg 0 =? 76); [|destruct (nth 0 msg 0 =? 102)]; simpl;
      destruct (_ >? 1000); reflexivity.
  - destruct (nth 0 msg 0 =? 76); [|destruct (nth 0 msg 0 =? 102)]; simpl;
      destruct (_ >? 1000); reflexivity.
  - destruct (Z.gtb_spec (u32 (u32 (clock w (S (reads w))) - u32 (clock w (reads w)))) 1000);
      [lia | reflexivity].
  - destruct (Z.gtb_spec (u32 (u32 (clock w (S (reads w))) - u32 (clock w (reads w)))) 1000);
      [lia | reflexivity].
Qed.

Lemma updateTempSensor_unknown_tag_witness :
  let w := sensor_demo [0x00; 0x12; 0x34; 0x56] (fun k => 5000 + Z.of_nat k) in
  temp (sampler (exec updateTempSensor w)) = temp (sampler w) /\
  message_waiting (dec (exec updateTempSensor w)) = 0 /\
  last_time (sampler (exec updateTempSensor w)) = 5000 /\
  consectutive_timeouts (sampler (exec updateTempSensor w)) = 0.
Proof.
  intros w.
  assert (H1 : message_waiting (dec w) = 1) by reflexivity.
  assert (H2 : nth 0 (message (dec w)) 0 <> 0x4c) by (vm_compute; discriminate).
  assert (H3 : nth 0 (message (dec w)) 0 <> 0x66) by (vm_compute; discriminate).
  destruct (updateTempSensor_unknown_tag w H1 H2 H3) as [A [_ [B [_ C]]]].
  destruct C as [C1 C2]; [vm_compute; discriminate|].
  repeat split; assumption.
Defined.



(** *** Decoder *)

Ltac dec_simpl :=
  cbn [nbits hexbyte read_byte byte_ready message nbytes message_waiting
       set_nbits set_hexbyte set_read_byte set_byte_ready set_message
       set_nbytes set_message_waiting option_map].

(** C6. In every decoder state, an edge that completes a byte equal to
    [0x0D] resets the byte index to 0 and raises the message-waiting flag,
    whatever the number of bytes collected so far; the buffer is untouched. *)
Theorem readBit_terminator (val : bool) (d : Decoder) :
  s16 (nbits d + 1) = 8 ->
  u8 (Z.lor (Z.shiftl (hexbyte d) 1) (if val then 1 else 0)) = 0xd ->
  exists d',
    readBit val d = Some d' /\
    nbytes d' = 0 /\ message_waiting d' = 1 /\ message d' = message d.
Proof.
  intros Hn Hb. unfold readBit. dec_simpl. rewrite Hn. dec_simpl.
  destruct (byte_ready d =? 0); dec_simpl; rewrite Hb; dec_simpl;
    eexists; repeat split; reflexivity.
Qed.

Lemma readBit_terminator_witness :
  exists d',
    readBit true (set_nbytes 2 (set_hexbyte 6 (set_nbits 7 decoder_reset)))
      = Some d' /\
    nbytes d' = 0 /\ message_waiting d' = 1 /\
    message d' = message (set_nbytes 2 (set_hexbyte 6 (set_nbits 7 decoder_reset))).
Proof. apply readBit_terminator; reflexivity. Defined.

Lemma store_message_some i v msg :
  0 <= i < 4 -> exists msg', store_message i v msg = Some msg'.
Proof.
  intros H. unfold store_message.
  destruct (Z.leb_spec 0 i); [|lia]. destruct (Z.ltb_spec i 4); [|lia].
  simpl. eexists. reflexivity.
Qed.

Lemma s16_small z : -32768 <= z < 32768 -> s16 z = z.
Proof. intros H. unfold s16. rewrite Z.mod_small; lia. Qed.

Lemma readBits_app l1 : forall l2 d,
  readBits (l1 ++ l2) d =
  match readBits l1 d with Some d1 => readBits l2 d1 | None => None end.
Proof.
  induction l1 as [|v l1 IH]; intros l2 d; [reflexivity|].
  cbn [app readBits]. destruct (readBit v d); [apply IH | reflexivity].
Qed.

Lemma readBits_8 v7 v6 v5 v4 v3 v2 v1 v0 d :
  between_bytes d ->
  readBits [v7; v6; v5; v4; v3; v2; v1; v0] d =
  byte_done (fold_left shift_in [v7; v6; v5; v4; v3; v2; v1; v0] 0) d.
Proof.
  intros [Hn Hh]. destruct d as [nb hb rb br msg ny mw].
  cbn [nbits hexbyte] in Hn, Hh. subst nb hb.
  unfold readBits, readBit, byte_done, fold_left, shift_in. dec_simpl.
  change (s16 (0 + 1) =? 8) with false. cbv iota. dec_simpl.
  change (s16 (s16 (0 + 1) + 1) =? 8) with false. cbv iota. dec_simpl.
  change (s16 (s16 (s16 (0 + 1) + 1) + 1) =? 8) with false. cbv iota. dec_simpl.
  change (s16 (s16 (s16 (s16 (0 + 1) + 1) + 1) + 1) =? 8) with false.
  cbv iota. dec_simpl.
  change (s16 (s16 (s16 (s16 (s16 (0 + 1) + 1) + 1) + 1) + 1) =? 8) with false.
  cbv iota. dec_simpl.
  change (s16 (s16 (s16 (s16 (s16 (s16 (0 + 1) + 1) + 1) + 1) + 1) + 1) =? 8)
    with false. cbv iota. dec_simpl.
  change (s16 (s16 (s16 (s16 (s16 (s16 (s16 (0 + 1) + 1) + 1) + 1) + 1) + 1) + 1) =? 8)
    with false. cbv iota. dec_simpl.
  change (s16 (s16 (s16 (s16 (s16 (s16 (s16 (s16 (0 + 1) + 1) + 1) + 1) + 1) + 1) + 1) + 1) =? 8)
    with true. cbv iota. dec_simpl.
  destruct (br =? 0); dec_simpl;
    (destruct (_ =? 13); dec_simpl; [reflexivity|]);
    (destruct (mw =? 0); dec_simpl; [|reflexivity]);
    (destruct (ny <? 4); dec_simpl; [|reflexivity]);
    destruct (store_message _ _ _); reflexivity.
Qed.

Lemma shift_in_bits_list :
  forallb (fun n => fold_left shift_in (bits_of_byte (Z.of_nat n)) 0 =? Z.of_nat n)
          (seq 0 256) = true.
Proof. vm_compute. reflexivity. Qed.

Lemma shift_in_bits b : is_byte b -> fold_left shift_in (bits_of_byte b) 0 = b.
Proof.
  intros H. pose proof shift_in_bits_list as L. rewrite forallb_forall in L.
  specialize (L (Z.to_nat b)). rewrite Z2Nat.id in L by (unfold is_byte in H; lia).
  apply Z.eqb_eq, L. apply in_seq. unfold is_byte in H. lia.
Qed.

Lemma readBits_byte b d :
  between_bytes d -> is_byte b -> readBits (bits_of_byte b) d = byte_done b d.
Proof.
  intros Hd Hb. rewrite <- (shift_in_bits b Hb) at 2.
  unfold bits_of_byte. cbn [map]. apply readBits_8, Hd.
Qed.

Lemma byte_done_store x d :
  x <> 0xd -> message_waiting d = 0 -> 0 <= nbytes d < 4 ->
  exists d',
    byte_done x d = Some d' /\
    message d' = firstn (Z.to_nat (nbytes d)) (message d) ++
                 x :: skipn (S (Z.to_nat (nbytes d))) (message d) /\
    nbytes d' = nbytes d + 1 /\ message_waiting d' = 0 /\ between_bytes d'.
Proof.
  intros Hx Hw Hn. unfold byte_done.
  apply Z.eqb_neq in Hx. rewrite Hx.
  assert (HS : store_message (nbytes d) x (message d) =
              Some (firstn (Z.to_nat (nbytes d)) (message d) ++
                    x :: skipn (S (Z.to_nat (nbytes d))) (message d))).
  { unfold store_message.
    destruct (Z.leb_spec 0 (nbytes d)); [|lia].
    destruct (Z.ltb_spec (nbytes d) 4); [|lia]. reflexivity. }
  destruct (byte_ready d =? 0); dec_simpl; rewrite Hw; dec_simpl;
    (destruct (Z.ltb_spec (nbytes d) 4); [|lia]); rewrite HS; dec_simpl;
    eexists; (split; [reflexivity|]); dec_simpl;
    rewrite s16_small by lia; repeat split; try reflexivity; exact Hw.
Qed.

Lemma byte_done_terminator d :
  exists d',
    byte_done 0xd d = Some d' /\ message d' = message d /\
    nbytes d' = 0 /\ message_waiting d' = 1 /\ between_bytes d'.
Proof.
  unfold byte_done. change (13 =? 13) with true. cbv iota.
  destruct (byte_ready d =? 0); dec_simpl; eexists;
    (split; [reflexivity|]); dec_simpl; repeat split; reflexivity.
Qed.

Lemma store_shape (A : Type) (k n : nat) (x : A) (bs msg : list A) :
  (k <= length msg)%nat ->
  let msg1 := firstn k msg ++ x :: skipn (S k) msg in
  firstn (S k) msg1 ++ bs ++ skipn (S k + n) msg1 =
  firstn k msg ++ (x :: bs) ++ skipn (k + S n) msg.
Proof.
  intros H msg1.
  assert (L : length (firstn k msg) = k) by (rewrite length_firstn; lia).
  assert (F : firstn (S k) msg1 = firstn k msg ++ [x]).
  { unfold msg1. rewrite firstn_app, L, firstn_firstn.
    replace (Nat.min (S k) k) with k by lia.
    replace (S k - k)%nat with 1%nat by lia. reflexivity. }
  assert (K : skipn (S k + n) msg1 = skipn (k + S n) msg).
  { unfold msg1. rewrite skipn_app, L.
    rewrite skipn_all2 by (rewrite L; lia).
    replace (S k + n - k)%nat with (S n) by lia. cbn [app].
    rewrite skipn_cons, skipn_skipn. f_equal. lia. }
  rewrite F, K, <- app_assoc. reflexivity.
Qed.

Lemma readBits_bytes bs : forall d,
  between_bytes d -> message_waiting d = 0 -> 0 <= nbytes d ->
  nbytes d + Z.of_nat (length bs) <= 4 -> length (message d) = 4%nat ->
  Forall data_byte bs ->
  exists d',
    readBits (flat_map bits_of_byte bs) d = Some d' /\
    message d' = firstn (Z.to_nat (nbytes d)) (message d) ++ bs ++
                 skipn (Z.to_nat (nbytes d) + length bs) (message d) /\
    nbytes d' = nbytes d + Z.of_nat (length bs) /\
    message_waiting d' = 0 /\ between_bytes d'.
Proof.
  induction bs as [|b bs IH]; intros d Hb Hw H0 H4 Hl Hall.
  - exists d. cbn [flat_map readBits length app]. rewrite Nat.add_0_r.
    rewrite firstn_skipn. repeat split; auto; try apply Hb. lia.
  - inversion Hall as [|? ? [Hb1 Hb2] Hrest]; subst.
    cbn [length] in H4. rewrite Nat2Z.inj_succ in H4.
    cbn [flat_map]. rewrite readBits_app, readBits_byte by assumption.
    destruct (byte_done_store b d Hb2 Hw) as [d1 (E1 & M1 & N1 & W1 & B1)];
      [lia|].
    rewrite E1.
    destruct (IH d1) as [d' (E' & M' & N' & W' & B')]; try assumption; try lia.
    { rewrite M1, length_app, length_firstn. cbn [length].
      rewrite length_skipn. lia. }
    exists d'. split; [exact E'|]. split; [|split; [|split; assumption]].
    + rewrite M', N1, M1.
      replace (Z.to_nat (nbytes d + 1)) with (S (Z.to_nat (nbytes d))) by lia.
      cbn [length].
      apply store_shape. lia.
    + rewrite N', N1. cbn [length]. lia.
Qed.


Lemma byte_done_drop x d :
  x <> 0xd -> message_waiting d = 0 -> 4 <= nbytes d < 32767 ->
  exists d',
    byte_done x d = Some d' /\ message d' = message d /\
    nbytes d' = nbytes d + 1 /\ message_waiting d' = 0 /\ between_bytes d'.
Proof.
  intros Hx Hw Hn. unfold byte_done.
  apply Z.eqb_neq in Hx. rewrite Hx.
  destruct (byte_ready d =? 0); dec_simpl; rewrite Hw; dec_simpl;
    (destruct (Z.ltb_spec (nbytes d) 4); [lia|]); dec_simpl;
    eexists; (split; [reflexivity|]); dec_simpl;
    rewrite s16_small by lia; repeat split; try reflexivity; exact Hw.
Qed.

Lemma firstn_4_full (msg rest : list Z) (k : nat) :
  length msg = 4%nat -> (4 <= k)%nat -> firstn 4 (firstn k msg ++ rest) = msg.
Proof.
  intros Hl Hk. rewrite (firstn_all2 (n := k)) by lia.
  rewrite firstn_app, Hl, Nat.sub_diag, firstn_O, app_nil_r.
  apply firstn_all2. lia.
Qed.

(** The bytes of a burst land at the byte index onward; what falls beyond
    the fourth cell is not kept. *)
Lemma readBits_data_bytes bs : forall d,
  between_bytes d -> message_waiting d = 0 -> 0 <= nbytes d ->
  nbytes d + Z.of_nat (length bs) < 32768 -> length (message d) = 4%nat ->
  Forall data_byte bs ->
  exists d',
    readBits (flat_map bits_of_byte bs) d = Some d' /\
    nbytes d' = nbytes d + Z.of_nat (length bs) /\
    message d' =
      firstn 4 (firstn (Z.to_nat (nbytes d)) (message d) ++ bs ++
                skipn (Z.to_nat (nbytes d) + length bs) (message d)).
Proof.
  induction bs as [|b bs IH]; intros d Hb Hw H0 Hov Hl Hall.
  - exists d. cbn [flat_map readBits length app]. rewrite Nat.add_0_r.
    rewrite firstn_skipn. split; [reflexivity|]. split; [lia|].
    symmetry. apply firstn_all2. lia.
  - inversion Hall as [|? ? [Hb1 Hb2] Hrest]; subst.
    cbn [length] in Hov. rewrite Nat2Z.inj_succ in Hov.
    cbn [flat_map]. rewrite readBits_app, readBits_byte by assumption.
    destruct (Z.ltb_spec (nbytes d) 4) as [Hlt|Hge].
    + destruct (byte_done_store b d Hb2 Hw) as [d1 (E1 & M1 & N1 & W1 & B1)];
        [lia|].
      rewrite E1.
      destruct (IH d1) as [d' (E' & N' & M')]; try assumption; try lia.
      { rewrite M1, length_app, length_firstn. cbn [length].
        rewrite length_skipn. lia. }
      exists d'. split; [exact E'|]. split.
      * rewrite N', N1. cbn [length]. lia.
      * rewrite M', N1, M1.
        replace (Z.to_nat (nbytes d + 1)) with (S (Z.to_nat (nbytes d))) by lia.
        cbn [length]. f_equal. apply store_shape. lia.
    + destruct (byte_done_drop b d Hb2 Hw) as [d1 (E1 & M1 & N1 & W1 & B1)];
        [lia|].
      rewrite E1.
      destruct (IH d1) as [d' (E' & N' & M')]; try assumption; try lia.
      { rewrite M1. exact Hl. }
      exists d'. split; [exact E'|]. split.
      * rewrite N', N1. cbn [length]. lia.
      * rewrite M', M1. rewrite !firstn_4_full by (try assumption; lia).
        reflexivity.
Qed.

(** Once four bytes are in, or a message is waiting, no edge writes to the
    buffer. *)
Lemma readBit_buffer_kept val d :
  4 <= nbytes d \/ message_waiting d <> 0 -> 0 <= nbytes d < 32767 ->
  exists d',
    readBit val d = Some d' /\ message d' = message d /\
    (4 <= nbytes d' \/ message_waiting d' <> 0) /\
    0 <= nbytes d' <= nbytes d + 1.
Proof.
  intros HJ Hn. unfold readBit. dec_simpl.
  destruct (s16 (nbits d + 1) =? 8); dec_simpl;
    [|eexists; repeat split; dec_simpl; try reflexivity; try lia; exact HJ].
  destruct (byte_ready d =? 0); dec_simpl;
    (destruct (_ =? 13); dec_simpl;
     [eexists; split; [reflexivity|]; dec_simpl;
      repeat split; try lia; right; discriminate|]);
    (destruct (Z.eqb_spec (message_waiting d) 0) as [Hw|Hw]; dec_simpl;
     [|eexists; split; [reflexivity|]; dec_simpl;
       repeat split; try lia; right; exact Hw]);
    (destruct HJ as [HJ|HJ]; [|contradiction]);
    (destruct (Z.ltb_spec (nbytes d) 4); [lia|]); dec_simpl;
    eexists; (split; [reflexivity|]); dec_simpl;
    rewrite s16_small by lia; repeat split; try lia; left; lia.
Qed.

Lemma readBits_buffer_kept vals : forall d,
  4 <= nbytes d \/ message_waiting d <> 0 -> 0 <= nbytes d ->
  nbytes d + Z.of_nat (length vals) < 32768 ->
  exists d', readBits vals d = Some d' /\ message d' = message d.
Proof.
  induction vals as [|v rest IH]; intros d HJ H0 Hov.
  - exists d. split; reflexivity.
  - cbn [length] in Hov. rewrite Nat2Z.inj_succ in Hov.
    destruct (readBit_buffer_kept v d HJ) as [d1 (E1 & M1 & J1 & N1)]; [lia|].
    destruct (IH d1 J1) as [d' (E' & M')]; [lia|lia|].
    exists d'. cbn [readBits]. rewrite E1. split; [exact E'|].
    rewrite M', M1. reflexivity.
Qed.






Lemma of_Z_ge_250_list :
  forallb (fun n => Bool.eqb (F32.leb (F32.of_Z 250) (F32.of_Z (Z.of_nat n)))
                             (250 <=? Z.of_nat n)) (seq 0 1000) = true.
Proof. vm_compute. reflexivity. Qed.

Lemma of_Z_ge_250 n :
  0 <= n < 1000 -> F32.leb (F32.of_Z 250) (F32.of_Z n) = (250 <=? n).
Proof.
  intros H. pose proof of_Z_ge_250_list as L.
  rewrite forallb_forall in L.
  specialize (L (Z.to_nat n)). rewrite Z2Nat.id in L by lia.
  apply eqb_prop, L. apply in_seq. lia.
Qed.

Lemma u32_small z : 0 <= z < 4294967296 -> u32 z = z.
Proof. intros H. unfold u32. apply Z.mod_small. exact H. Qed.

Ltac heater_simpl :=
  cbn [heatcycles heaterState heatCurrentTime heatLastTime relay
       set_heatcycles set_heaterState set_heatCurrentTime set_heatLastTime
       set_relay].

Lemma heater_step_start now h :
  heatcycles h = F32.of_Z 250 ->
  (u32 (now - heatLastTime h) >=? 1000) || (heatLastTime h >? now) = true ->
  heater_step now h =
  set_heatLastTime now
    (set_heaterState true (set_relay true (set_heatCurrentTime now h))).
Proof.
  intros Hc Hs. unfold heater_step. rewrite Hs. heater_simpl.
  rewrite Z.sub_diag, Hc. reflexivity.
Qed.

Lemma heater_step_within now h :
  heatcycles h = F32.of_Z 250 ->
  (u32 (now - heatLastTime h) >=? 1000) || (heatLastTime h >? now) = false ->
  heater_step now h =
  if 250 <=? u32 (now - heatLastTime h)
  then set_heaterState false (set_relay false (set_heatCurrentTime now h))
  else set_heatCurrentTime now h.
Proof.
  intros Hc Hs. unfold heater_step. rewrite Hs. heater_simpl.
  apply orb_false_iff in Hs. destruct Hs as [H1 _].
  rewrite Hc, of_Z_ge_250; [reflexivity|].
  pose proof (u32_range (now - heatLastTime h)).
  destruct (Z.geb_spec (u32 (now - heatLastTime h)) 1000); [discriminate|lia].
Qed.

Lemma heater_inv_step now h :
  heatcycles h = F32.of_Z 250 ->
  heater_inv 250 h ->
  0 <= now < 4294967296 ->
  u32 (now - heatCurrentTime h) < 4294966296 ->
  heater_inv 250 (heater_step now h).
Proof.
  intros Hc (I1 & I2 & I3 & I4 & I5) Hn Hg.
  destruct ((u32 (now - heatLastTime h) >=? 1000) || (heatLastTime h >? now)) eqn:Hs.
  - rewrite heater_step_start by assumption.
    unfold heater_inv. heater_simpl. rewrite Z.sub_diag.
    (split; [lia|]); (split; [lia|]); (split; [lia|]); split; reflexivity.
  - rewrite heater_step_within by assumption.
    apply orb_false_iff in Hs. destruct Hs as [H1 H2].
    destruct (Z.gtb_spec (heatLastTime h) now) as [|Hle]; [discriminate|].
    assert (Eu : u32 (now - heatLastTime h) = now - heatLastTime h)
      by (apply u32_small; lia).
    rewrite Eu in *.
    destruct (Z.geb_spec (now - heatLastTime h) 1000) as [|Hlt]; [discriminate|].
    assert (Hmono : heatCurrentTime h <= now).
    { destruct (Z.le_gt_cases (heatCurrentTime h) now) as [|Hgt]; [assumption|].
      exfalso. unfold u32 in Hg.
      replace (now - heatCurrentTime h)
        with (now - heatCurrentTime h + 4294967296 + (-1) * 4294967296) in Hg by lia.
      rewrite Z.mod_add in Hg by lia.
      rewrite Z.mod_small in Hg by lia. lia. }
    destruct (Z.leb_spec 250 (now - heatLastTime h)) as [Hge|Hlt'];
      unfold heater_inv; heater_simpl;
      (split; [lia|]); (split; [lia|]); (split; [lia|]); split.
    + symmetry. apply Z.ltb_ge. lia.
    + reflexivity.
    + rewrite I4.
      destruct (Z.ltb_spec (heatCurrentTime h - heatLastTime h) 250);
        destruct (Z.ltb_spec (now - heatLastTime h) 250); try reflexivity; lia.
    + exact I5.
Qed.

Lemma updateHeater_clock w : clock (exec updateHeater w) = clock w.
Proof. rewrite updateHeater_exec. reflexivity. Qed.

Lemma updateHeater_reads w : reads (exec updateHeater w) = S (reads w).
Proof. rewrite updateHeater_exec. reflexivity. Qed.

Lemma updateHeater_heater w :
  heater (exec updateHeater w) = heater_step (poll_time w 0) (heater w).
Proof.
  rewrite updateHeater_exec. unfold poll_time. rewrite Nat.add_0_r. reflexivity.
Qed.

Lemma heater_step_current now h : heatCurrentTime (heater_step now h) = now.
Proof.
  unfold heater_step. destruct (_ || _); heater_simpl;
    destruct (F32.leb _ _); reflexivity.
Qed.

Lemma updateHeaters_inv n : forall w,
  heatcycles (heater w) = F32.of_Z 250 ->
  heater_inv 250 (heater w) ->
  u32 (poll_time w 0 - heatCurrentTime (heater w)) < 4294966296 ->
  (forall k, (S k < n)%nat ->
     u32 (poll_time w (S k) - poll_time w k) < 4294966296) ->
  heater_inv 250 (heater (exec (updateHeaters n) w)).
Proof.
  induction n as [|n IH]; intros w Hc Hi H0 Hgap; [exact Hi|].
  cbn [updateHeaters]. rewrite exec_bind.
  set (w1 := exec updateHeater w).
  assert (Hp : forall k, poll_time w1 k = poll_time w (S k)).
  { intros k. unfold poll_time, w1.
    rewrite updateHeater_clock, updateHeater_reads.
    f_equal. f_equal. lia. }
  assert (Hi1 : heater_inv 250 (heater w1)).
  { unfold w1. rewrite updateHeater_heater.
    apply heater_inv_step; auto. apply u32_range. }
  destruct n as [|n']; [exact Hi1|].
  apply IH.
  - unfold w1. rewrite updateHeater_heater, heater_step_heatcycles. exact Hc.
  - exact Hi1.
  - rewrite Hp. unfold w1. rewrite updateHeater_heater, heater_step_current.
    apply Hgap. lia.
  - intros k Hk. rewrite !Hp. apply Hgap. lia.
Qed.

Lemma opens_true now h :
  1000 <= u32 (now - heatLastTime h) \/ now < heatLastTime h ->
  (u32 (now - heatLastTime h) >=? 1000) || (heatLastTime h >? now) = true.
Proof.
  intros Hs. apply orb_true_iff. destruct Hs as [Hs|Hs]; [left|right].
  - apply Z.geb_le. exact Hs.
  - apply Z.gtb_lt. exact Hs.
Qed.

Lemma opens_false now h :
  ~ (1000 <= u32 (now - heatLastTime h) \/ now < heatLastTime h) ->
  (u32 (now - heatLastTime h) >=? 1000) || (heatLastTime h >? now) = false.
Proof.
  intros Hs. apply orb_false_iff. split.
  - destruct (Z.geb_spec (u32 (now - heatLastTime h)) 1000); [|reflexivity].
    exfalso. apply Hs. left. lia.
  - destruct (Z.gtb_spec (heatLastTime h) now); [|reflexivity].
    exfalso. apply Hs. right. lia.
Qed.

(** One poll at power 250, with the tests read on the integers. *)
Lemma heater_step_250 now h :
  heatcycles h = F32.of_Z 250 ->
  let elapsed := u32 (now - heatLastTime h) in
  let opens := 1000 <= elapsed \/ now < heatLastTime h in
  heatCurrentTime (heater_step now h) = now /\
  (opens ->
   heatLastTime (heater_step now h) = now /\
   heaterState (heater_step now h) = true /\
   relay (heater_step now h) = true) /\
  (~ opens ->
   heatLastTime (heater_step now h) = heatLastTime h /\
   heaterState (heater_step now h) =
     (if 250 <=? elapsed then false else heaterState h) /\
   relay (heater_step now h) = (if 250 <=? elapsed then false else relay h)).
Proof.
  intros Hc elapsed opens. split; [apply heater_step_current|]. split.
  - intros Hs. rewrite heater_step_start by (auto using opens_true).
    heater_simpl. repeat split.
  - intros Hs. rewrite heater_step_within by (auto using opens_false).
    fold elapsed. destruct (250 <=? elapsed); heater_simpl; repeat split.
Qed.

Lemma updateHeaters_clock n : forall w,
  clock (exec (updateHeaters n) w) = clock w.
Proof.
  induction n as [|n IH]; intros w; [reflexivity|].
  cbn [updateHeaters]. rewrite exec_bind, IH. apply updateHeater_clock.
Qed.

Lemma updateHeaters_reads n : forall w,
  reads (exec (updateHeaters n) w) = (reads w + n)%nat.
Proof.
  induction n as [|n IH]; intros w; [cbn; lia|].
  cbn [updateHeaters]. rewrite exec_bind, IH, updateHeater_reads. lia.
Qed.

Lemma updateHeaters_last n : forall w,
  exec (updateHeaters (S n)) w = exec updateHeater (exec (updateHeaters n) w).
Proof.
  induction n as [|n IH]; intros w.
  - cbn [updateHeaters]. rewrite exec_bind. reflexivity.
  - change (updateHeaters (S (S n))) with (updateHeater ;; updateHeaters (S n)).
    rewrite exec_bind, IH.
    change (updateHeaters (S n)) with (updateHeater ;; updateHeaters n).
    rewrite exec_bind. reflexivity.
Qed.

Lemma updateHeaters_heatcycles n : forall w,
  heatcycles (heater (exec (updateHeaters n) w)) = heatcycles (heater w).
Proof.
  induction n as [|n IH]; intros w; [reflexivity|].
  cbn [updateHeaters]. rewrite exec_bind, IH, updateHeater_heater.
  apply heater_step_heatcycles.
Qed.

(** A run that starts with a poll that opens a window. *)
Lemma updateHeaters_inv_from_start n w :
  heatcycles (heater w) = F32.of_Z 250 ->
  (1000 <= u32 (poll_time w 0 - heatLastTime (heater w)) \/
   poll_time w 0 < heatLastTime (heater w)) ->
  (forall k, (k < n)%nat ->
     u32 (poll_time w (S k) - poll_time w k) < 4294966296) ->
  heater_inv 250 (heater (exec (updateHeaters (S n)) w)).
Proof.
  intros Hc Hs Hgap. cbn [updateHeaters]. rewrite exec_bind.
  set (w1 := exec updateHeater w).
  assert (Hp : forall k, poll_time w1 k = poll_time w (S k)).
  { intros k. unfold poll_time, w1.
    rewrite updateHeater_clock, updateHeater_reads.
    f_equal. f_equal. lia. }
  assert (Hn : 0 <= poll_time w 0 < 4294967296) by apply u32_range.
  assert (H1 : heater (w1) =
               set_heatLastTime (poll_time w 0)
                 (set_heaterState true (set_relay true
                    (set_heatCurrentTime (poll_time w 0) (heater w))))).
  { unfold w1. rewrite updateHeater_heater.
    apply heater_step_start; auto using opens_true. }
  destruct n as [|n].
  - change (exec (updateHeaters 0) w1) with w1. rewrite H1.
    unfold heater_inv. heater_simpl. rewrite Z.sub_diag.
    (split; [lia|]); (split; [lia|]); (split; [lia|]); split; reflexivity.
  - apply updateHeaters_inv.
    + rewrite H1. heater_simpl. exact Hc.
    + rewrite H1. unfold heater_inv. heater_simpl. rewrite Z.sub_diag.
      (split; [lia|]); (split; [lia|]); (split; [lia|]); split; reflexivity.
    + rewrite Hp, H1. heater_simpl. apply Hgap. lia.
    + intros k Hk. rewrite !Hp. apply Hgap. lia.
Qed.

(** Polled every millisecond from a poll that opens a window, with no wrap:
    the windows are consecutive, each 1000 polls long. *)
Lemma updateHeaters_every_ms n : forall w,
  heatcycles (heater w) = F32.of_Z 250 ->
  (1000 <= u32 (poll_time w 0 - heatLastTime (heater w)) \/
   poll_time w 0 < heatLastTime (heater w)) ->
  (forall k, (k <= n)%nat -> poll_time w k = poll_time w 0 + Z.of_nat k) ->
  heatLastTime (heater (exec (updateHeaters (S n)) w)) =
    poll_time w 0 + 1000 * (Z.of_nat n / 1000) /\
  heaterState (heater (exec (updateHeaters (S n)) w)) =
    (Z.of_nat n mod 1000 <? 250) /\
  relay (heater (exec (updateHeaters (S n)) w)) =
    heaterState (heater (exec (updateHeaters (S n)) w)).
Proof.
  induction n as [|n IH]; intros w Hc Hs Hms.
  - cbn [updateHeaters]. rewrite exec_bind.
    change (exec (ret tt) (exec updateHeater w)) with (exec updateHeater w).
    rewrite updateHeater_heater.
    destruct (heater_step_250 (poll_time w 0) (heater w) Hc) as (_ & A & _).
    destruct (A Hs) as (A1 & A2 & A3).
    rewrite A1, A2, A3. repeat split. change (Z.of_nat 0 / 1000) with 0. lia.
  - destruct (IH w Hc Hs) as (I1 & I2 & I3); [intros k Hk; apply Hms; lia|].
    rewrite updateHeaters_last.
    set (wn := exec (updateHeaters (S n)) w) in *.
    assert (Hc' : heatcycles (heater wn) = F32.of_Z 250)
      by (unfold wn; rewrite updateHeaters_heatcycles; exact Hc).
    assert (Hnow : poll_time wn 0 = poll_time w 0 + Z.of_nat (S n)).
    { rewrite <- Hms by lia. unfold poll_time, wn.
      rewrite updateHeaters_clock, updateHeaters_reads.
      f_equal. f_equal. lia. }
    rewrite updateHeater_heater.
    destruct (heater_step_250 (poll_time wn 0) (heater wn) Hc') as (_ & A & B).
    pose proof (u32_range (clock wn (reads wn + 0))) as Hr.
    fold (poll_time wn 0) in Hr.
    pose proof (u32_range (clock w (reads w + 0))) as Hr0.
    fold (poll_time w 0) in Hr0.
    assert (He : u32 (poll_time wn 0 - heatLastTime (heater wn)) =
                 Z.of_nat n mod 1000 + 1).
    { rewrite Hnow, I1. rewrite u32_small.
      - rewrite Nat2Z.inj_succ. Z.div_mod_to_equations. lia.
      - rewrite Nat2Z.inj_succ. rewrite Hnow in Hr.
        rewrite Nat2Z.inj_succ in Hr. Z.div_mod_to_equations. lia. }
    assert (Hle : heatLastTime (heater wn) <= poll_time wn 0).
    { rewrite Hnow, I1, Nat2Z.inj_succ. Z.div_mod_to_equations. lia. }
    destruct (Z.eq_dec (Z.of_nat n mod 1000) 999) as [E|E].
    + destruct A as (A1 & A2 & A3); [left; rewrite He; lia|].
      rewrite A1, A2, A3, Hnow, !Nat2Z.inj_succ.
      split; [Z.div_mod_to_equations; lia|]. split; [|reflexivity].
      symmetry. apply Z.ltb_lt. Z.div_mod_to_equations. lia.
    + destruct B as (B1 & B2 & B3).
      { intros [H|H]; [rewrite He in H|];
          [pose proof (Z.mod_pos_bound (Z.of_nat n) 1000); lia | lia]. }
      rewrite B1, B2, B3, He, I1, I2, I3, I2, !Nat2Z.inj_succ.
      split; [Z.div_mod_to_equations; lia|]. split; [|reflexivity].
      destruct (Z.leb_spec 250 (Z.of_nat n mod 1000 + 1)).
      * symmetry. apply Z.ltb_ge. Z.div_mod_to_equations. lia.
      * transitivity true; [apply Z.ltb_lt; lia|].
        symmetry. apply Z.ltb_lt. Z.div_mod_to_equations. lia.
Qed.

(** C8, amended. With the stored power at 250, a poll that finds 1000 ms
    elapsed since the window start, or the counter below the window start
    (wrap), opens a new window: it sets the output high and the window start
    to the time read. Any other poll keeps the window start, sets the output
    low if 250 ms of the window have elapsed and leaves it as it is
    otherwise. So, in a run that starts with a poll that opens a window,
    with polls less than [2^32 - 1000] ms apart, the output after every poll
    is high exactly when fewer than 250 ms have elapsed since the latest
    window start; and if the polls are one millisecond apart and the counter
    does not wrap, the windows are consecutive 1000 ms windows, the output
    high at the first 250 polls of each and low at the other 750. A window
    in which the counter wraps ends at the wrap, where the next one opens. *)
Theorem updateHeater_duty_250 (w : World) (n : nat) :
  heatcycles (heater w) = F32.of_Z 250 ->
  let now := poll_time w 0 in
  let h := heater w in
  let h' := heater (exec updateHeater w) in
  let elapsed := u32 (now - heatLastTime h) in
  let opens := 1000 <= elapsed \/ now < heatLastTime h in
  (heatCurrentTime h' = now /\
   (opens ->
    heatLastTime h' = now /\ heaterState h' = true /\ relay h' = true) /\
   (~ opens ->
    heatLastTime h' = heatLastTime h /\
    heaterState h' = (if 250 <=? elapsed then false else heaterState h) /\
    relay h' = (if 250 <=? elapsed then false else relay h))) /\
  (opens ->
   (forall k, (k < n)%nat ->
      u32 (poll_time w (S k) - poll_time w k) < 4294966296) ->
   heater_inv 250 (heater (exec (updateHeaters (S n)) w))) /\
  (opens ->
   (forall k, (k <= n)%nat -> poll_time w k = now + Z.of_nat k) ->
   let hn := heater (exec (updateHeaters (S n)) w) in
   heatLastTime hn = now + 1000 * (Z.of_nat n / 1000) /\
   heaterState hn = (Z.of_nat n mod 1000 <? 250) /\
   relay hn = heaterState hn).
Proof.
  intros Hc now h h' elapsed opens. split; [|split].
  - unfold h'. rewrite updateHeater_heater. apply heater_step_250, Hc.
  - intros Hs Hgap. apply updateHeaters_inv_from_start; assumption.
  - intros Hs Hms. apply updateHeaters_every_ms; assumption.
Qed.

(** Power 250, polled every millisecond from 1000 ms after power-up: high
    at 0 to 249 ms of each window, low from 250 ms, high again 1000 ms after
    the window opened. *)
Lemma updateHeater_duty_250_witness :
  let w := heater_demo 250 (fun k => 1000 + Z.of_nat k) in
  let high n := heaterState (heater (exec (updateHeaters (S n)) w)) in
  let start n := heatLastTime (heater (exec (updateHeaters (S n)) w)) in
  (high 0%nat = true /\ high 249%nat = true /\ high 250%nat = false /\
   high 999%nat = false /\ high 1000%nat = true /\ high 1249%nat = true /\
   high 1250%nat = false) /\
  (start 0%nat = 1000 /\ start 999%nat = 1000 /\ start 1000%nat = 2000 /\
   start 1250%nat = 2000) /\
  heater_inv 250 (heater (exec (updateHeaters (S 1250)) w)).
Proof.
  intros w high start.
  assert (Hc : heatcycles (heater w) = F32.of_Z 250) by reflexivity.
  assert (Hs : 1000 <= u32 (poll_time w 0 - heatLastTime (heater w)) \/
               poll_time w 0 < heatLastTime (heater w))
    by (left; vm_compute; discriminate).
  assert (Hp : forall k, (k <= 1250)%nat ->
                 poll_time w k = 1000 + Z.of_nat k).
  { intros k Hk. unfold poll_time.
    change (clock w (reads w + k)) with (1000 + Z.of_nat k).
    apply u32_small. lia. }
  assert (Hms : forall n k, (n <= 1250)%nat -> (k <= n)%nat ->
                  poll_time w k = poll_time w 0 + Z.of_nat k).
  { intros n k Hn Hk. rewrite !Hp by lia. reflexivity. }
  assert (C : forall n, (n <= 1250)%nat ->
            start n = 1000 + 1000 * (Z.of_nat n / 1000) /\
            high n = (Z.of_nat n mod 1000 <? 250)).
  { intros n Hn.
    destruct (updateHeater_duty_250 w n Hc) as (_ & _ & C).
    destruct (C Hs (fun k Hk => Hms n k Hn Hk)) as (C1 & C2 & _).
    split; [exact C1 | exact C2]. }
  split; [|split].
  - repeat split; (etransitivity; [apply C; lia | reflexivity]).
  - repeat split; (etransitivity; [apply C; lia | reflexivity]).
  - refine (proj1 (proj2 (updateHeater_duty_250 w 1250 Hc)) Hs _).
    intros k Hk. rewrite !Hp by lia. rewrite u32_small; lia.
Defined.

(** At power-up the window start is 0 and the output low: the output stays
    low until the counter reaches 1000. *)
Lemma updateHeater_low_before_first_window (w : World) :
  heatcycles (heater w) = F32.of_Z 250 ->
  heatLastTime (heater w) = 0 -> heaterState (heater w) = false ->
  poll_time w 0 < 1000 ->
  heaterState (heater (exec updateHeater w)) = false /\
  heatLastTime (heater (exec updateHeater w)) = 0.
Proof.
  intros Hc Hl Hh Hn. rewrite updateHeater_heater.
  pose proof (u32_range (clock w (reads w + 0))) as Hr.
  fold (poll_time w 0) in Hr.
  destruct (heater_step_250 (poll_time w 0) (heater w) Hc) as (_ & _ & B).
  destruct B as (B1 & B2 & _).
  { rewrite Hl, Z.sub_0_r, u32_small by lia. lia. }
  split; [|rewrite B1; exact Hl].
  rewrite B2, Hh. destruct (250 <=? _); reflexivity.
Qed.

(** C8 as stated fails on the window in which the counter wraps: a window
    opened at [2^32 - 500] and polled each millisecond is low at 499 ms, but
    at 500 ms, where the counter reads 0, the output is high again, inside
    what should be the low 750 ms. *)
Lemma updateHeater_wrap_restarts_window :
  let w0 := heater_demo 250 wrap_clock in
  let w500 := exec (updateHeaters 500) w0 in
  let w501 := exec (updateHeaters 501) w0 in
  heatLastTime (heater (exec updateHeater w0)) = 4294966796 /\
  heaterState (heater (exec updateHeater w0)) = true /\
  (heatCurrentTime (heater w500) = 4294967295 /\
   heatLastTime (heater w500) = 4294966796 /\
   heaterState (heater w500) = false) /\
  (heatCurrentTime (heater w501) = 0 /\
   u32 (heatCurrentTime (heater w501) - 4294966796) = 500 /\
   heaterState (heater w501) = true /\
   heatLastTime (heater w501) = 0).
Proof. vm_compute. repeat split; reflexivity. Qed.

(** *** Code that prints: how a run that returns decomposes *)

Lemma pbind_done {A B} (m : P A) (k : A -> P B) fuel w b w2 out :
  pbind m k fuel w = Done (b, w2, out) ->
  exists a w1 out1 out2,
    m fuel w = Done (a, w1, out1) /\ k a fuel w1 = Done (b, w2, out2) /\
    out = out1 ++ out2.
Proof.
  unfold pbind. destruct (m fuel w) as [[[a w1] out1]| |]; try discriminate.
  destruct (k a fuel w1) as [[[b' w2'] out2]| |] eqn:Ek; try discriminate.
  intros E. inversion E; subst. exists a, w1, out1, out2.
  repeat split. exact Ek.
Qed.

Lemma lift_done {A} (m : M A) fuel w a w1 out :
  lift m fuel w = Done (a, w1, out) ->
  a = eval m w /\ w1 = exec m w /\ out = [].
Proof. unfold lift. intros E. inversion E. auto. Qed.

Lemma loop_done fuel w w' out :
  loop fuel w = Done (tt, w', out) -> exists w1, w' = exec loop_control w1.
Proof.
  unfold loop. intros E.
  apply pbind_done in E. destruct E as (a & w1 & o1 & o2 & _ & E & _).
  apply pbind_done in E. destruct E as (a' & w2 & o3 & o4 & _ & E & _).
  apply lift_done in E. exists w2. apply E.
Qed.

Lemma loop_control_override (w : World) :
  consectutive_timeouts (sampler (exec loop_control w)) > 20 ->
  heatcycles (heater (exec loop_control w)) = F32.zero /\
  heaterState (heater (exec loop_control w)) = false /\
  relay (heater (exec loop_control w)) = false.
Proof.
  destruct (loop_tail w) as [w3 E]. rewrite E. clear E.
  rewrite !updateHeater_exec. cbn [sampler heater set_heater set_reads].
  intros H.
  assert (Hc : (consectutive_timeouts (sampler w3) >? 20) = true).
  { destruct (consectutive_timeouts (sampler w3) >? 20) eqn:E; [reflexivity|].
    exfalso. cbn [when] in H. 
    change (exec (ret tt) w3) with w3 in H.
    rewrite Z.gtb_ltb in E. apply Z.ltb_ge in E. lia. }
  rewrite Hc in *. cbn [when].
  assert (Hz : heatcycles (heater (exec (setHeatPowerPercentage (F32.of_Z 0)) w3))
               = F32.zero) by reflexivity.
  rewrite heater_step_heatcycles. split; [exact Hz|].
  apply heater_step_zero. rewrite Hz. reflexivity.
Qed.

Lemma loops_last n : forall fuel w w' out,
  loops (S n) fuel w = Done (tt, w', out) ->
  exists w1 out1, loop fuel w1 = Done (tt, w', out1).
Proof.
  induction n as [|n IH]; intros fuel w w' out E.
  - cbn [loops] in E. apply pbind_done in E.
    destruct E as ([] & w1 & o1 & o2 & E1 & E2 & _).
    inversion E2; subst. exists w, o1. exact E1.
  - change (loops (S (S n))) with (loop ;;; loops (S n)) in E.
    apply pbind_done in E.
    destruct E as ([] & w1 & o1 & o2 & _ & E2 & _).
    exact (IH _ _ _ _ E2).
Qed.



(** * Further properties of the sketch *)

(** [x <= y] false for comparable numbers means [y < x]. *)
Lemma not_leb_ltb x y :
  F32.is_nan x = false -> F32.is_nan y = false ->
  F32.leb x y = false -> F32.ltb y x = true.
Proof.
  unfold F32.ltb, F32.leb, SFltb, SFleb. intros Hx Hy.
  rewrite (compare_antisym y x).
  destruct (SFcompare x y) as [[| |]|] eqn:E; simpl; try congruence.
  destruct x, y; simpl in *; discriminate.
Qed.

Lemma ltb_leb x y : F32.ltb x y = true -> F32.leb x y = true.
Proof.
  unfold F32.ltb, F32.leb, SFltb, SFleb.
  destruct (SFcompare x y) as [[| |]|]; congruence.
Qed.

Lemma leb_not_nan x y :
  F32.leb x y = true -> F32.is_nan x = false /\ F32.is_nan y = false.
Proof. destruct x, y; simpl; intros H; try discriminate; split; reflexivity. Qed.

(** Lexicographic comparison on (exponent, mantissa). *)
Lemma lex_trans e1 m1 e2 m2 e3 m3 :
  match e1 ?= e2 with Lt => Lt | Gt => Gt | Eq => Pos.compare_cont Eq m1 m2 end <> Gt ->
  match e2 ?= e3 with Lt => Lt | Gt => Gt | Eq => Pos.compare_cont Eq m2 m3 end <> Gt ->
  match e1 ?= e3 with Lt => Lt | Gt => Gt | Eq => Pos.compare_cont Eq m1 m3 end <> Gt.
Proof.
  change (Pos.compare_cont Eq m1 m2) with (m1 ?= m2)%positive.
  change (Pos.compare_cont Eq m2 m3) with (m2 ?= m3)%positive.
  change (Pos.compare_cont Eq m1 m3) with (m1 ?= m3)%positive.
  destruct (Z.compare_spec e1 e2), (Z.compare_spec e2 e3), (Z.compare_spec e1 e3);
    try lia; try congruence;
    destruct (Pos.compare_spec m1 m2), (Pos.compare_spec m2 m3),
             (Pos.compare_spec m1 m3); try lia; congruence.
Qed.

Lemma leb_finite_pos m1 e1 m2 e2 :
  F32.leb (S754_finite false m1 e1) (S754_finite false m2 e2) = true <->
  match e1 ?= e2 with Lt => Lt | Gt => Gt | Eq => Pos.compare_cont Eq m1 m2 end <> Gt.
Proof.
  unfold F32.leb, SFleb. simpl.
  destruct (e1 ?= e2); [destruct (Pos.compare_cont Eq m1 m2)| |];
    split; congruence.
Qed.

Lemma leb_finite_neg m1 e1 m2 e2 :
  F32.leb (S754_finite true m1 e1) (S754_finite true m2 e2) = true <->
  match e2 ?= e1 with Lt => Lt | Gt => Gt | Eq => Pos.compare_cont Eq m2 m1 end <> Gt.
Proof.
  unfold F32.leb, SFleb. simpl.
  change (Pos.compare_cont Eq m1 m2) with (m1 ?= m2)%positive.
  change (Pos.compare_cont Eq m2 m1) with (m2 ?= m1)%positive.
  destruct (Z.compare_spec e1 e2), (Z.compare_spec e2 e1); try lia;
    try (split; congruence).
  destruct (Pos.compare_spec m1 m2), (Pos.compare_spec m2 m1); try lia;
    simpl; split; congruence.
Qed.

Lemma leb_trans x y z :
  F32.leb x y = true -> F32.leb y z = true -> F32.leb x z = true.
Proof.
  destruct x as [sx|sx| |sx mx ex], y as [sy|sy| |sy my ey],
           z as [sz|sz| |sz mz ez];
    try (intros; discriminate);
    try (destruct sx, sy, sz; cbv; intros; congruence);
    try (destruct sx, sy; cbv; intros; congruence);
    try (destruct sx, sz; cbv; intros; congruence);
    try (destruct sy, sz; cbv; intros; congruence).
  destruct sx, sy, sz; try (intros; reflexivity); try (intros; discriminate).
  - rewrite !leb_finite_neg. intros H1 H2. eapply lex_trans; eassumption.
  - rewrite !leb_finite_pos. intros H1 H2. eapply lex_trans; eassumption.
Qed.

Lemma of_Z_succ_list :
  forallb (fun n => F32.leb (F32.of_Z (Z.of_nat n)) (F32.of_Z (Z.of_nat (S n))))
          (seq 0 1000) = true.
Proof. vm_compute. reflexivity. Qed.

Lemma of_Z_mono a b : 0 <= a <= b -> b < 1000 ->
  F32.leb (F32.of_Z a) (F32.of_Z b) = true.
Proof.
  intros Ha Hb.
  replace b with (a + Z.of_nat (Z.to_nat (b - a))) by lia.
  assert (Hk : (a + Z.of_nat (Z.to_nat (b - a))) < 1000) by lia.
  induction (Z.to_nat (b - a)) as [|k IH].
  - rewrite Z.add_0_r. apply leb_refl.
    apply nonneg_not_nan, of_Z_nonneg. lia.
  - eapply leb_trans; [apply IH; lia|].
    pose proof of_Z_succ_list as L. rewrite forallb_forall in L.
    specialize (L (Z.to_nat (a + Z.of_nat k))).
    rewrite Nat2Z.inj_succ in L. rewrite Z2Nat.id in L by lia.
    replace (a + Z.of_nat (S k)) with (Z.succ (a + Z.of_nat k)) by lia.
    apply L. apply in_seq. lia.
Qed.

Lemma heater_step_cases now h :
  let start := (u32 (now - heatLastTime h) >=? 1000) || (heatLastTime h >? now) in
  heater_step now h =
  if start then
    if (F32.of_Z 0 >=? heatcycles h)%f32
    then set_heaterState false (set_relay false
           (set_heatLastTime now (set_heaterState true (set_relay true
              (set_heatCurrentTime now h)))))
    else set_heatLastTime now (set_heaterState true (set_relay true
           (set_heatCurrentTime now h)))
  else
    if (F32.of_Z (u32 (now - heatLastTime h)) >=? heatcycles h)%f32
    then set_heaterState false (set_relay false (set_heatCurrentTime now h))
    else set_heatCurrentTime now h.
Proof.
  intros start. unfold heater_step. fold start. destruct start; heater_simpl.
  - rewrite Z.sub_diag. reflexivity.
  - reflexivity.
Qed.

Lemma heater_duty_inv_step now h :
  heater_duty_inv h ->
  0 <= now < 4294967296 ->
  u32 (now - heatCurrentTime h) < 4294966296 ->
  heater_duty_inv (heater_step now h).
Proof.
  intros (I1 & I2 & I3 & I4 & I5) Hn Hg.
  rewrite heater_step_cases. cbv zeta.
  destruct ((u32 (now - heatLastTime h) >=? 1000) || (heatLastTime h >? now)) eqn:Hs.
  - destruct (F32.leb (heatcycles h) (F32.of_Z 0)) eqn:E;
      unfold heater_duty_inv; heater_simpl; rewrite Z.sub_diag;
      (split; [lia|]); (split; [lia|]); (split; [lia|]); split;
      try reflexivity; rewrite E; reflexivity.
  - apply orb_false_iff in Hs. destruct Hs as [H1 H2].
    destruct (Z.gtb_spec (heatLastTime h) now) as [|Hle]; [discriminate|].
    assert (Eu : u32 (now - heatLastTime h) = now - heatLastTime h)
      by (apply u32_small; lia).
    rewrite Eu in *.
    destruct (Z.geb_spec (now - heatLastTime h) 1000) as [|Hlt]; [discriminate|].
    assert (Hmono : heatCurrentTime h <= now).
    { destruct (Z.le_gt_cases (heatCurrentTime h) now) as [|Hgt]; [assumption|].
      exfalso. unfold u32 in Hg.
      replace (now - heatCurrentTime h)
        with (now - heatCurrentTime h + 4294967296 + (-1) * 4294967296) in Hg by lia.
      rewrite Z.mod_add in Hg by lia.
      rewrite Z.mod_small in Hg by lia. lia. }
    destruct (F32.leb (heatcycles h) (F32.of_Z (now - heatLastTime h))) eqn:E;
      unfold heater_duty_inv; heater_simpl;
      (split; [lia|]); (split; [lia|]); (split; [lia|]); split.
    + rewrite E. reflexivity.
    + reflexivity.
    + rewrite E, I4. simpl.
      destruct (F32.leb (heatcycles h)
                  (F32.of_Z (heatCurrentTime h - heatLastTime h))) eqn:E0;
        [|reflexivity].
      assert (Hm : F32.leb (F32.of_Z (heatCurrentTime h - heatLastTime h))
                           (F32.of_Z (now - heatLastTime h)) = true)
        by (apply of_Z_mono; lia).
      rewrite (leb_trans _ _ _ E0 Hm) in E. discriminate.
    + exact I5.
Qed.

Lemma updateHeaters_duty_inv n : forall w,
  heater_duty_inv (heater w) ->
  u32 (poll_time w 0 - heatCurrentTime (heater w)) < 4294966296 ->
  (forall k, (S k < n)%nat ->
     u32 (poll_time w (S k) - poll_time w k) < 4294966296) ->
  heater_duty_inv (heater (exec (updateHeaters n) w)).
Proof.
  induction n as [|n IH]; intros w Hi H0 Hgap; [exact Hi|].
  cbn [updateHeaters]. rewrite exec_bind.
  set (w1 := exec updateHeater w).
  assert (Hp : forall k, poll_time w1 k = poll_time w (S k)).
  { intros k. unfold poll_time, w1.
    rewrite updateHeater_clock, updateHeater_reads.
    f_equal. f_equal. lia. }
  assert (Hi1 : heater_duty_inv (heater w1)).
  { unfold w1. rewrite updateHeater_heater.
    apply heater_duty_inv_step; auto. apply u32_range. }
  destruct n as [|n']; [exact Hi1|].
  apply IH.
  - exact Hi1.
  - rewrite Hp. unfold w1. rewrite updateHeater_heater, heater_step_current.
    apply Hgap. lia.
  - intros k Hk. rewrite !Hp. apply Hgap. lia.
Qed.

Lemma updateHeaters_duty_from_start n w :
  (1000 <= u32 (poll_time w 0 - heatLastTime (heater w)) \/
   poll_time w 0 < heatLastTime (heater w)) ->
  (forall k, (k < n)%nat ->
     u32 (poll_time w (S k) - poll_time w k) < 4294966296) ->
  heater_duty_inv (heater (exec (updateHeaters (S n)) w)).
Proof.
  intros Hs Hgap. cbn [updateHeaters]. rewrite exec_bind.
  set (w1 := exec updateHeater w).
  assert (Hp : forall k, poll_time w1 k = poll_time w (S k)).
  { intros k. unfold poll_time, w1.
    rewrite updateHeater_clock, updateHeater_reads.
    f_equal. f_equal. lia. }
  assert (Hn : 0 <= poll_time w 0 < 4294967296) by apply u32_range.
  assert (H1 : heater_duty_inv (heater w1) /\
               heatCurrentTime (heater w1) = poll_time w 0).
  { unfold w1. rewrite updateHeater_heater.
    split; [|apply heater_step_current].
    rewrite heater_step_cases. cbv zeta. rewrite (opens_true _ _ Hs).
    destruct (F32.leb (heatcycles (heater w)) (F32.of_Z 0)) eqn:E;
      unfold heater_duty_inv; heater_simpl; rewrite Z.sub_diag;
      (split; [lia|]); (split; [lia|]); (split; [lia|]); split;
      try reflexivity; rewrite E; reflexivity. }
  destruct H1 as [H1 H2].
  destruct n as [|n]; [exact H1|].
  apply updateHeaters_duty_inv.
  - exact H1.
  - rewrite Hp, H2. apply Hgap. lia.
  - intros k Hk. rewrite !Hp. apply Hgap. lia.
Qed.

Lemma heater_step_start_time now h :
  (1000 <= u32 (now - heatLastTime h) \/ now < heatLastTime h ->
   heatLastTime (heater_step now h) = now) /\
  (~ (1000 <= u32 (now - heatLastTime h) \/ now < heatLastTime h) ->
   heatLastTime (heater_step now h) = heatLastTime h).
Proof.
  rewrite heater_step_cases. cbv zeta. split; intros Hs.
  - rewrite (opens_true _ _ Hs).
    destruct (F32.leb _ _); reflexivity.
  - rewrite (opens_false _ _ Hs).
    destruct (F32.leb _ _); reflexivity.
Qed.



Lemma leb_nan_r x : F32.leb x F32.nan = false.
Proof. destruct x; reflexivity. Qed.

Lemma leb_nan_l y : F32.leb F32.nan y = false.
Proof. reflexivity. Qed.

Lemma heater_step_nan now h :
  F32.is_nan (heatcycles h) = true ->
  heaterState (heater_step now h) =
    ((u32 (now - heatLastTime h) >=? 1000) || (heatLastTime h >? now)
     || heaterState h).
Proof.
  intros Hn. destruct (heatcycles h) eqn:E; try discriminate.
  rewrite heater_step_cases. cbv zeta. rewrite E.
  change (F32.leb S754_nan ?x) with false. cbv iota.
  destruct (_ || _); reflexivity.
Qed.

Lemma updateHeaters_nan n : forall w,
  F32.is_nan (heatcycles (heater w)) = true ->
  heaterState (heater w) = true ->
  heaterState (heater (exec (updateHeaters n) w)) = true.
Proof.
  induction n as [|n IH]; intros w Hn Hs; [exact Hs|].
  cbn [updateHeaters]. rewrite exec_bind. apply IH.
  - rewrite updateHeater_heater, heater_step_heatcycles. exact Hn.
  - rewrite updateHeater_heater, heater_step_nan by exact Hn.
    rewrite Hs. apply orb_true_r.
Qed.

(** X2. With a NaN stored power the off-check never fires: once the output
    is high, or as soon as a poll opens a window, it stays high after every
    later poll, whatever the clock does. *)
Theorem updateHeater_nan_power_never_off (w : World) (n : nat) :
  F32.is_nan (heatcycles (heater w)) = true ->
  (heaterState (heater w) = true \/
   1000 <= u32 (poll_time w 0 - heatLastTime (heater w)) \/
   poll_time w 0 < heatLastTime (heater w)) ->
  heaterState (heater (exec (updateHeaters (S n)) w)) = true.
Proof.
  intros Hn Hs. cbn [updateHeaters]. rewrite exec_bind.
  apply updateHeaters_nan.
  - rewrite updateHeater_heater, heater_step_heatcycles. exact Hn.
  - rewrite updateHeater_heater, heater_step_nan by exact Hn.
    destruct Hs as [Hs|[Hs|Hs]].
    + rewrite Hs. apply orb_true_r.
    + apply Z.geb_le in Hs. rewrite Hs. reflexivity.
    + apply Z.gtb_lt in Hs. rewrite Hs. rewrite orb_true_r. reflexivity.
Qed.

(** X3. [setHeatPowerPercentage] saturates: for every power that is a number
    the stored value lies in [0, 1000]; it is [0.0] for a power at or below
    0, [1000.0] for a power at or above 1000, and the power itself in
    between. A NaN power is stored as it is: both comparisons are false. *)
Theorem setHeatPowerPercentage_clamps (power : float32) (w : World) :
  let h := heatcycles (heater (exec (setHeatPowerPercentage power) w)) in
  (F32.is_nan power = false ->
     (f0_0 <=? h)%f32 = true /\ (h <=? f1000_0)%f32 = true /\
     ((power <=? f0_0)%f32 = true -> h = f0_0) /\
     ((power >=? f1000_0)%f32 = true -> h = f1000_0) /\
     ((power <=? f0_0)%f32 = false -> (power >=? f1000_0)%f32 = false ->
      h = power)) /\
  (F32.is_nan power = true -> F32.is_nan h = true).
Proof.
  intros h. subst h. rewrite setHeatPowerPercentage_exec.
  cbn [heater set_heater heatcycles set_heatcycles]. cbv zeta.
  split.
  - intros Hn.
    destruct (F32.leb power f0_0) eqn:E0.
    + change (F32.leb f1000_0 f0_0) with false. cbv iota.
      repeat split; try reflexivity; try discriminate.
      intros H. exfalso.
      pose proof (leb_trans _ _ _ H E0) as C. discriminate C.
    + destruct (F32.leb f1000_0 power) eqn:E1.
      * repeat split; try reflexivity; discriminate.
      * assert (P0 : F32.ltb f0_0 power = true)
          by (apply not_leb_ltb; [exact Hn | reflexivity | exact E0]).
        assert (P1 : F32.ltb power f1000_0 = true)
          by (apply not_leb_ltb; [reflexivity | exact Hn | exact E1]).
        repeat split; try discriminate; try reflexivity.
        -- apply ltb_leb, P0.
        -- apply ltb_leb, P1.
  - intros Hn. destruct power; try discriminate. reflexivity.
Qed.

Lemma mul_nan_l y : F32.mul F32.nan y = F32.nan.
Proof. reflexivity. Qed.
Lemma mul_nan_r x : F32.mul x F32.nan = F32.nan.
Proof. destruct x; reflexivity. Qed.
Lemma add_nan_l y : F32.add F32.nan y = F32.nan.
Proof. reflexivity. Qed.
Lemma add_nan_r x : F32.add x F32.nan = F32.nan.
Proof. destruct x; reflexivity. Qed.
Lemma sub_nan_l y : F32.sub F32.nan y = F32.nan.
Proof. reflexivity. Qed.
Lemma sub_nan_r x : F32.sub x F32.nan = F32.nan.
Proof. destruct x; reflexivity. Qed.

Lemma is_nan_eq x : F32.is_nan x = true -> x = F32.nan.
Proof. destruct x; simpl; intros H; try discriminate H; reflexivity. Qed.

Lemma updatePID_eval t c w :
  eval (updatePID t c) w =
  let p' := pid (exec (updatePID t c) w) in
  (pTerm p' + iTerm p' - dTerm p')%f32.
Proof.
  unfold updatePID, exec, eval, bind, gets, upd_pid, modify, ret. simpl.
  destruct (F32.ltb _ _); simpl; [reflexivity|].
  destruct (F32.ltb _ _); simpl; reflexivity.
Qed.

(** X4. If the proportional gain, the target or the current temperature is
    NaN, [updatePID] returns NaN, and [setHeatPowerPercentage] applied to
    that result stores a NaN power. *)
Theorem updatePID_nan_propagates (w : World) (targetTemp curTemp : float32) :
  F32.is_nan (pgain (pid w)) = true \/ F32.is_nan targetTemp = true \/
    F32.is_nan curTemp = true ->
  eval (updatePID targetTemp curTemp) w = F32.nan /\
  F32.is_nan
    (heatcycles (heater
       (exec (setHeatPowerPercentage (eval (updatePID targetTemp curTemp) w))
             (exec (updatePID targetTemp curTemp) w)))) = true.
Proof.
  intros H.
  assert (E : eval (updatePID targetTemp curTemp) w = F32.nan).
  { rewrite updatePID_eval, updatePID_pid. cbv zeta.
    cbn [pTerm set_lastTemp set_dTerm set_iTerm set_iState set_pTerm].
    assert (P : (pgain (pid w) * (targetTemp - curTemp))%f32 = F32.nan).
    { destruct H as [H|[H|H]]; apply is_nan_eq in H; rewrite H.
      - apply mul_nan_l.
      - rewrite sub_nan_l. apply mul_nan_r.
      - rewrite sub_nan_r. apply mul_nan_r. }
    rewrite P. reflexivity. }
  split; [exact E|]. rewrite E. reflexivity.
Qed.

(** X5. Clocking at most four data bytes (none of them [0x0D]) and then the
    terminator, most significant bit first, into an idle decoder succeeds
    and leaves those bytes at the front of the message buffer, the rest of
    the buffer as it was, the message-waiting flag raised and the byte index
    back at 0. *)
Theorem readBits_frame (bytes : list Z) (d : Decoder) :
  idle d -> (length bytes <= 4)%nat -> Forall data_byte bytes ->
  exists d',
    readBits (frame_bits bytes) d = Some d' /\
    message d' = bytes ++ skipn (length bytes) (message d) /\
    message_waiting d' = 1 /\ nbytes d' = 0 /\ between_bytes d'.
Proof.
  intros (Hb & Hn & Hw & Hl) Hlen Hall.
  destruct (readBits_bytes bytes d) as [d1 (E1 & M1 & N1 & W1 & B1)];
    try assumption; try lia.
  unfold frame_bits. rewrite readBits_app, E1.
  rewrite readBits_byte; [|exact B1|unfold is_byte; lia].
  destruct (byte_done_terminator d1) as [d' (E' & M' & N' & W' & B')].
  exists d'. split; [exact E'|]. split; [|auto].
  rewrite M', M1, Hn. reflexivity.
Qed.

Lemma readBits_frame_witness :
  exists d',
    readBits (frame_bits [0x4c; 0x10]) decoder_reset = Some d' /\
    message d' = [0x4c; 0x10] ++ skipn (length [0x4c; 0x10]) (message decoder_reset) /\
    message_waiting d' = 1 /\ nbytes d' = 0 /\ between_bytes d'.
Proof.
  apply readBits_frame.
  - repeat split; reflexivity.
  - cbn. lia.
  - repeat constructor; vm_compute; congruence.
Defined.

Lemma raw16_list :
  forallb (fun hi => forallb (fun lo =>
      raw16 (Z.of_nat hi) (Z.of_nat lo) =?
      (if Z.of_nat hi <? 128 then 256 * Z.of_nat hi + Z.of_nat lo
       else 256 * Z.of_nat hi + Z.of_nat lo - 65536))
    (seq 0 256)) (seq 0 256) = true.
Proof. vm_compute. reflexivity. Qed.

Lemma raw16_cases hi lo :
  is_byte hi -> is_byte lo ->
  raw16 hi lo = (if hi <? 128 then 256 * hi + lo else 256 * hi + lo - 65536).
Proof.
  unfold is_byte. intros Hh Hl.
  assert (Ih : In (Z.to_nat hi) (seq 0 256)) by (apply in_seq; lia).
  assert (Il : In (Z.to_nat lo) (seq 0 256)) by (apply in_seq; lia).
  pose proof (proj1 (forallb_forall _ _) raw16_list _ Ih) as L.
  cbv beta in L.
  pose proof (proj1 (forallb_forall _ _) L _ Il) as L2.
  cbv beta in L2. rewrite !Z2Nat.id in L2 by lia.
  apply Z.eqb_eq, L2.
Qed.

(** X6. The raw reading [message[1]<<8 | message[2]] is a 16-bit [int]: it is
    [256*hi + lo] for a high byte below [0x80] and [256*hi + lo - 65536],
    a negative number, from [0x80] on. *)
Theorem raw16_value (hi lo : Z) :
  is_byte hi -> is_byte lo ->
  raw16 hi lo = (if hi <? 128 then 256 * hi + lo else 256 * hi + lo - 65536) /\
  (hi < 128 -> 0 <= raw16 hi lo) /\
  (128 <= hi -> raw16 hi lo < 0).
Proof.
  intros Hh Hl. pose proof (raw16_cases hi lo Hh Hl) as E.
  split; [exact E|]. rewrite E. unfold is_byte in *.
  destruct (Z.ltb_spec hi 128); split; intros; lia.
Qed.

Lemma raw16_value_witness :
  raw16 0x10 0x00 = (if 0x10 <? 128 then 256 * 0x10 + 0x00 else 256 * 0x10 + 0x00 - 65536) /\
  (0x10 < 128 -> 0 <= raw16 0x10 0x00) /\
  (128 <= 0x10 -> raw16 0x10 0x00 < 0).
Proof. apply raw16_value; unfold is_byte; lia. Defined.

(** *** What the decoder leaves alone *)

Lemma readBit_waiting val d :
  message_waiting d = 1 ->
  exists d', readBit val d = Some d' /\ message d' = message d /\
             message_waiting d' = 1.
Proof.
  intros Hw. unfold readBit. dec_simpl.
  destruct (s16 (nbits d + 1) =? 8); dec_simpl;
    [|eexists; repeat split; try reflexivity; exact Hw].
  destruct (byte_ready d =? 0); dec_simpl;
    (destruct (_ =? 13); dec_simpl;
     [eexists; repeat split; reflexivity|]);
    rewrite Hw; change (1 =? 0) with false; cbv iota; dec_simpl;
    eexists; repeat split; try reflexivity; exact Hw.
Qed.

(** X7. While a message is waiting, no burst of clock edges changes the
    message buffer or lowers the flag, and the decoder never stores outside
    the buffer: the frame stays intact until [updateTempSensor] consumes
    it. *)
Theorem readBits_waiting_frame_kept (vals : list bool) (d : Decoder) :
  message_waiting d = 1 ->
  exists d', readBits vals d = Some d' /\ message d' = message d /\
             message_waiting d' = 1.
Proof.
  revert d. induction vals as [|v vals IH]; intros d Hw.
  - exists d. repeat split; auto.
  - destruct (readBit_waiting v d Hw) as [d1 (E1 & M1 & W1)].
    destruct (IH d1 W1) as [d' (E' & M' & W')].
    exists d'. cbn [readBits]. rewrite E1. repeat split; congruence.
Qed.

Lemma readBits_waiting_frame_kept_witness :
  exists d', readBits (frame_bits [1; 2; 3; 4])
               (set_message_waiting 1 (set_message [0x4c; 0x10; 0; 0] decoder_reset))
             = Some d' /\
             message d' = message
               (set_message_waiting 1 (set_message [0x4c; 0x10; 0; 0] decoder_reset)) /\
             message_waiting d' = 1.
Proof. apply readBits_waiting_frame_kept. reflexivity. Defined.

Lemma readBit_latched_step val d :
  byte_ready d = 1 -> 0 <= nbytes d < 32767 ->
  exists d',
    readBit val d = Some d' /\ read_byte d' = read_byte d /\
    byte_ready d' = 1 /\ 0 <= nbytes d' <= nbytes d + 1.
Proof.
  intros Hr Hn. unfold readBit. dec_simpl.
  destruct (s16 (nbits d + 1) =? 8); dec_simpl;
    [|eexists; split; [reflexivity|]; dec_simpl; repeat split;
      try exact Hr; lia].
  rewrite Hr. change (1 =? 0) with false. cbv iota.
  destruct (_ =? 13); dec_simpl;
    [eexists; split; [reflexivity|]; dec_simpl; repeat split;
     try exact Hr; lia|].
  destruct (message_waiting d =? 0); dec_simpl;
    [|eexists; split; [reflexivity|]; dec_simpl; repeat split;
      try exact Hr; lia].
  destruct (Z.ltb_spec (nbytes d) 4).
  - destruct (store_message_some (nbytes d)
                (u8 (Z.lor (Z.shiftl (hexbyte d) 1) (if val then 1 else 0)))
                (message d)) as [m' Hm]; [lia|].
    rewrite Hm. dec_simpl. eexists. split; [reflexivity|]. dec_simpl.
    rewrite s16_small by lia. repeat split; try exact Hr; lia.
  - dec_simpl. eexists. split; [reflexivity|]. dec_simpl.
    rewrite s16_small by lia. repeat split; try exact Hr; lia.
Qed.

(** X8. Once a byte is latched ([byte_ready = 1]), every burst of clock
    edges short of overflowing the 16-bit byte count is decoded, and none
    changes [read_byte] or clears [byte_ready]: the first byte wins. *)
Theorem readBits_first_byte_latched (vals : list bool) (d : Decoder) :
  byte_ready d = 1 -> 0 <= nbytes d ->
  nbytes d + Z.of_nat (length vals) < 32768 ->
  exists d',
    readBits vals d = Some d' /\
    read_byte d' = read_byte d /\ byte_ready d' = 1.
Proof.
  revert d. induction vals as [|v vals IH]; intros d Hr H0 Hov.
  - exists d. repeat split. exact Hr.
  - cbn [length] in Hov. rewrite Nat2Z.inj_succ in Hov.
    destruct (readBit_latched_step v d Hr) as [d1 (E1 & R1 & B1 & N1)]; [lia|].
    destruct (IH d1 B1) as [d' (E' & R' & B')]; [lia|lia|].
    exists d'. cbn [readBits]. rewrite E1.
    split; [exact E'|]. split; [congruence|exact B'].
Qed.

(** The first byte of a frame, [0x4c], is latched; the two bytes and the
    terminator that follow leave it in [read_byte]. *)
Lemma readBits_first_byte_latched_witness :
  exists d1 d',
    readBits (bits_of_byte 0x4c) decoder_reset = Some d1 /\
    read_byte d1 = 0x4c /\
    readBits (bits_of_byte 0x12 ++ bits_of_byte 0x34 ++ bits_of_byte 0xd) d1
      = Some d' /\
    read_byte d' = 0x4c /\ byte_ready d' = 1.
Proof.
  exists (set_nbytes 1 (set_message [0x4c; 0; 0; 0]
            (set_byte_ready 1 (set_read_byte 0x4c decoder_reset)))).
  destruct (readBits_first_byte_latched
              (bits_of_byte 0x12 ++ bits_of_byte 0x34 ++ bits_of_byte 0xd)
              (set_nbytes 1 (set_message [0x4c; 0; 0; 0]
                 (set_byte_ready 1 (set_read_byte 0x4c decoder_reset)))))
    as [d' (E & R & B)].
  - reflexivity.
  - vm_compute. discriminate.
  - vm_compute. reflexivity.
  - exists d'. split; [vm_compute; reflexivity|]. split; [reflexivity|].
    split; [exact E|]. split; [exact R|exact B].
Defined.

Section Preserves.
Context (Q : World -> Prop).

Lemma preserves_bind {A B} (m : M A) (k : A -> M B) :
  preserves Q m -> (forall a, preserves Q (k a)) -> preserves Q (bind m k).
Proof. intros Hm Hk w Hw. rewrite exec_bind. apply Hk, Hm, Hw. Qed.

Lemma preserves_ret {A} (a : A) : preserves Q (ret a).
Proof. intros w Hw. exact Hw. Qed.

Lemma preserves_gets {A} (f : World -> A) : preserves Q (gets f).
Proof. intros w Hw. exact Hw. Qed.

Lemma preserves_when b (m : M unit) : preserves Q m -> preserves Q (when b m).
Proof. intros Hm. destruct b; [exact Hm | apply preserves_ret]. Qed.

Lemma preserves_if {A} (b : bool) (m1 m2 : M A) :
  preserves Q m1 -> preserves Q m2 -> preserves Q (if b then m1 else m2).
Proof. destruct b; auto. Qed.
End Preserves.

Ltac pres_leaf := let w := fresh "w" in let H := fresh "H" in
  intros w H; exact H.

Create HintDb pres.
#[local] Hint Constants Opaque : pres.
#[local] Hint Variables Opaque : pres.

(** Structural rules first; [extra] takes whole blocks that keep the
    property only as a whole. *)
Ltac pres_with extra :=
  repeat first
    [ extra
    | match goal with
      | |- preserves _ (bind _ _) => apply preserves_bind; [|intros ?]
      | |- preserves _ (when _ _) => apply preserves_when
      | |- preserves _ (if _ then _ else _) => apply preserves_if
      | |- preserves _ (ret _) => apply preserves_ret
      | |- preserves _ (gets _) => apply preserves_gets
      end
    | solve [auto with pres nocore] ].

Ltac pres := pres_with fail.

(** The same rules for code that prints. *)
Section PreservesP.
Context (Q : World -> Prop).

Lemma preservesP_bind {A B} (m : P A) (k : A -> P B) :
  preservesP Q m -> (forall a, preservesP Q (k a)) -> preservesP Q (pbind m k).
Proof.
  intros Hm Hk fuel w b w2 out E Hw.
  apply pbind_done in E. destruct E as (a & w1 & o1 & o2 & E1 & E2 & _).
  exact (Hk a fuel w1 b w2 o2 E2 (Hm fuel w a w1 o1 E1 Hw)).
Qed.

Lemma preservesP_lift {A} (m : M A) : preserves Q m -> preservesP Q (lift m).
Proof.
  intros Hm fuel w a w1 out E Hw.
  apply lift_done in E. destruct E as (_ & -> & _). apply Hm, Hw.
Qed.

Lemma preservesP_pret {A} (a : A) : preservesP Q (pret a).
Proof. intros fuel w a' w1 out E Hw. inversion E; subst. exact Hw. Qed.

Lemma preservesP_pwhen b (m : P unit) :
  preservesP Q m -> preservesP Q (pwhen b m).
Proof. intros Hm. destruct b; [exact Hm | apply preservesP_pret]. Qed.

Lemma preservesP_if {A} (b : bool) (m1 m2 : P A) :
  preservesP Q m1 -> preservesP Q m2 -> preservesP Q (if b then m1 else m2).
Proof. destruct b; auto. Qed.

(** Printing leaves the globals alone. *)
Lemma preservesP_Serial_print s : preservesP Q (Serial_print s).
Proof. intros fuel w a' w1 out E Hw. inversion E; subst. exact Hw. Qed.

Lemma preservesP_Serial_println s : preservesP Q (Serial_println s).
Proof. intros fuel w a' w1 out E Hw. inversion E; subst. exact Hw. Qed.

Lemma preservesP_callPrintFloat v places :
  preservesP Q (callPrintFloat v places).
Proof.
  intros fuel w a' w1 out E Hw. unfold callPrintFloat in E.
  destruct (printFloat fuel v places); inversion E; subst. exact Hw.
Qed.
End PreservesP.

Ltac presP_step extra :=
  match goal with
  | |- preservesP _ (pbind _ _) => apply preservesP_bind; [|intros ?]
  | |- preservesP _ (pwhen _ _) => apply preservesP_pwhen
  | |- preservesP _ (if _ then _ else _) => apply preservesP_if
  | |- preservesP _ (pret _) => apply preservesP_pret
  | |- preservesP _ (Serial_print _) => apply preservesP_Serial_print
  | |- preservesP _ (Serial_println _) => apply preservesP_Serial_println
  | |- preservesP _ Serial_newline => apply preservesP_Serial_print
  | |- preservesP _ (callPrintFloat _ _) => apply preservesP_callPrintFloat
  | |- preservesP _ (lift _) => apply preservesP_lift; pres_with extra
  | |- preservesP _ _ => solve [auto with pres nocore]
  end.

Ltac presP_with extra := repeat presP_step extra.
Ltac presP := presP_with fail.

Lemma preservesP_printStatus Q : preservesP Q printStatus.
Proof.
  unfold printStatus, getTargetTemp, getLastTemp, getP, getI, getD,
    getHeatCycles.
  presP.
Qed.

Lemma preservesP_printStatusForGraph Q : preservesP Q printStatusForGraph.
Proof.
  unfold printStatusForGraph, getTargetTemp, getLastTemp, getP, getI, getD,
    getHeatCycles.
  presP.
Qed.

Lemma preservesP_printPIDDebugString Q : preservesP Q printPIDDebugString.
Proof. unfold printPIDDebugString, getHeatCycles. presP. Qed.

Lemma preservesP_printHelp Q : preservesP Q printHelp.
Proof. unfold printHelp. presP. Qed.

Lemma preservesP_setupSerialInterface Q : preservesP Q setupSerialInterface.
Proof. unfold setupSerialInterface. presP. Qed.
#[local] Hint Resolve preservesP_printStatus preservesP_printStatusForGraph
  preservesP_printPIDDebugString preservesP_printHelp
  preservesP_setupSerialInterface : pres.

(** What the serial interface, [loop] and a session keep, given what the
    print-free parts keep. *)
Section Invariant.
Context (Q : World -> Prop).
Hypothesis Q_adjust : forall c, preserves Q (serial_adjust c).
Hypothesis Q_control : preserves Q loop_control.
Hypothesis Q_millis : preserves Q millis.
Hypothesis Q_serial_time :
  forall f, preserves Q (upd_serial (fun s => set_lastUpdateTime (f s) s)).
Hypothesis Q_epoch : forall e, preserves Q (upd_main (set_epoch e)).
Hypothesis Q_rx : forall f, preserves Q (modify (fun w => set_rx (f w) w)).
Hypothesis Q_dec : forall f, preserves Q (upd_dec f).

Lemma inv_serial_command c : preservesP Q (serial_command c).
Proof. unfold serial_command. presP. Qed.

Lemma inv_serial_drain l : preservesP Q (serial_drain l).
Proof.
  induction l as [|c l IH]; cbn [serial_drain].
  - apply preservesP_pret.
  - apply preservesP_bind;
      [apply preservesP_lift; exact (Q_rx (fun _ => l))|intros ?].
    apply preservesP_bind; [apply inv_serial_command|intros ?]. exact IH.
Qed.

Lemma inv_updateSerialInterface : preservesP Q updateSerialInterface.
Proof.
  unfold updateSerialInterface.
  apply preservesP_bind; [apply preservesP_lift, preserves_gets|intros ?].
  apply preservesP_bind; [apply inv_serial_drain|intros ?].
  apply preservesP_bind; [apply preservesP_lift, Q_millis|intros ?].
  apply preservesP_bind; [apply preservesP_lift, preserves_gets|intros ?].
  apply preservesP_bind;
    [apply preservesP_pwhen, preservesP_lift;
     exact (Q_serial_time (fun _ => 0))|intros ?].
  apply preservesP_bind; [apply preservesP_lift, Q_millis|intros ?].
  apply preservesP_bind; [apply preservesP_lift, preserves_gets|intros ?].
  apply preservesP_pwhen.
  apply preservesP_bind; [apply preservesP_lift, Q_serial_time|intros ?].
  apply preservesP_bind; [apply preservesP_lift, preserves_gets|intros ?].
  apply preservesP_pwhen, preservesP_if;
    [apply preservesP_printStatusForGraph | apply preservesP_printStatus].
Qed.

Lemma inv_loop : preservesP Q loop.
Proof.
  unfold loop.
  apply preservesP_bind; [apply preservesP_lift|intros ?].
  { apply preserves_bind; [apply Q_millis|intros ?]. apply Q_epoch. }
  apply preservesP_bind; [apply inv_updateSerialInterface|intros ?].
  apply preservesP_lift, Q_control.
Qed.

Lemma inv_session events : preservesP Q (session events).
Proof.
  induction events as [|[bytes isr] events IH]; cbn [session].
  - apply preservesP_pret.
  - apply preservesP_bind; [apply preservesP_lift|intros ?].
    { apply preserves_bind; [|intros ?; apply Q_dec].
      exact (Q_rx (fun w => rx w ++ bytes)). }
    apply preservesP_bind; [apply inv_loop|intros ?]. exact IH.
Qed.
End Invariant.

(** [setup] always returns. *)
Lemma setup_done fuel w :
  setup fuel w = Done (tt, state_after setup fuel w, output_of setup fuel w).
Proof. reflexivity. Qed.

Lemma run_done {A} (m : P A) fuel w a w' out :
  m fuel w = Done (a, w', out) ->
  w' = state_after m fuel w /\ out = output_of m fuel w.
Proof.
  intros E. unfold state_after, output_of. rewrite E. split; reflexivity.
Qed.

Lemma persisted_millis : preserves persisted millis.
Proof. pres_leaf. Qed.
#[local] Hint Resolve persisted_millis : pres.

Lemma persisted_setP p : preserves persisted (setP p).
Proof.
  intros w (A1 & A2 & A3 & E1 & E2 & E3 & E4).
  unfold persisted, setP, exec, bind, gets, upd_pid, writeFloat, modify.
  cbn. rewrite A1, A2, A3. cbn. repeat split; assumption.
Qed.
#[local] Hint Resolve persisted_setP : pres.

Lemma persisted_setI p : preserves persisted (setI p).
Proof.
  intros w (A1 & A2 & A3 & E1 & E2 & E3 & E4).
  unfold persisted, setI, exec, bind, gets, upd_pid, writeFloat, modify.
  cbn. rewrite A1, A2, A3. cbn. repeat split; assumption.
Qed.
#[local] Hint Resolve persisted_setI : pres.

Lemma persisted_setD p : preserves persisted (setD p).
Proof.
  intros w (A1 & A2 & A3 & E1 & E2 & E3 & E4).
  unfold persisted, setD, exec, bind, gets, upd_pid, writeFloat, modify.
  cbn. rewrite A1, A2, A3. cbn. repeat split; assumption.
Qed.
#[local] Hint Resolve persisted_setD : pres.

Lemma persisted_setTargetTemp t : preserves persisted (setTargetTemp t).
Proof.
  intros w (A1 & A2 & A3 & E1 & E2 & E3 & E4).
  unfold persisted, setTargetTemp, exec, bind, gets, upd_main, writeFloat, modify.
  cbn. repeat split; assumption.
Qed.
#[local] Hint Resolve persisted_setTargetTemp : pres.

Lemma persisted_upd_serial f : preserves persisted (upd_serial f).
Proof. pres_leaf. Qed.
#[local] Hint Resolve persisted_upd_serial : pres.
Lemma persisted_upd_sampler f : preserves persisted (upd_sampler f).
Proof. pres_leaf. Qed.
#[local] Hint Resolve persisted_upd_sampler : pres.
Lemma persisted_upd_dec f : preserves persisted (upd_dec f).
Proof. pres_leaf. Qed.
#[local] Hint Resolve persisted_upd_dec : pres.
Lemma persisted_upd_heater f : preserves persisted (upd_heater f).
Proof. pres_leaf. Qed.
#[local] Hint Resolve persisted_upd_heater : pres.

Lemma persisted_serial_adjust c : preserves persisted (serial_adjust c).
Proof.
  unfold serial_adjust, getP, getI, getD, getTargetTemp.
  pres.
Qed.

Lemma persisted_updateTempSensor : preserves persisted updateTempSensor.
Proof.
  unfold updateTempSensor.
  pres.
Qed.
#[local] Hint Resolve persisted_updateTempSensor : pres.

Lemma persisted_updatePID t c : preserves persisted (updatePID t c).
Proof.
  intros w H. unfold persisted in *. rewrite updatePID_pid.
  assert (E : eeprom (exec (updatePID t c) w) = eeprom w /\
              main (exec (updatePID t c) w) = main w).
  { unfold updatePID, exec, bind, gets, upd_pid, modify, ret. simpl.
    destruct (F32.ltb _ _); simpl; [split; reflexivity|].
    destruct (F32.ltb _ _); simpl; split; reflexivity. }
  destruct E as [E1 E2]. rewrite E1, E2. exact H.
Qed.
#[local] Hint Resolve persisted_updatePID : pres.

Lemma persisted_setHeatPowerPercentage p :
  preserves persisted (setHeatPowerPercentage p).
Proof. pres_leaf. Qed.
#[local] Hint Resolve persisted_setHeatPowerPercentage : pres.

Lemma persisted_updateHeater : preserves persisted updateHeater.
Proof. intros w H. rewrite updateHeater_exec. exact H. Qed.
#[local] Hint Resolve persisted_updateHeater : pres.

Lemma persisted_getFreshTemp : preserves persisted getFreshTemp.
Proof. unfold getFreshTemp. pres. Qed.
#[local] Hint Resolve persisted_getFreshTemp : pres.

Lemma persisted_upd_main_epoch e : preserves persisted (upd_main (set_epoch e)).
Proof. pres_leaf. Qed.
#[local] Hint Resolve persisted_upd_main_epoch : pres.
Lemma persisted_upd_main_lastPIDTime f :
  preserves persisted (upd_main (fun m => set_lastPIDTime (f m) m)).
Proof. pres_leaf. Qed.
#[local] Hint Resolve persisted_upd_main_lastPIDTime : pres.
Lemma persisted_upd_main_heatPower p : preserves persisted (upd_main (set_heatPower p)).
Proof. pres_leaf. Qed.
#[local] Hint Resolve persisted_upd_main_heatPower : pres.

Lemma persisted_loop_control : preserves persisted loop_control.
Proof.
  unfold loop_control. pres.
Qed.

Lemma persisted_session events : preservesP persisted (session events).
Proof.
  apply inv_session; intros.
  - apply persisted_serial_adjust.
  - apply persisted_loop_control.
  - apply persisted_millis.
  - apply persisted_upd_serial.
  - apply persisted_upd_main_epoch.
  - pres_leaf.
  - apply persisted_upd_dec.
Qed.

Lemma setup_loads fuel w :
  let w' := state_after setup fuel w in
  pgain (pid w') = eeprom w PGAIN_ADR /\
  igain (pid w') = eeprom w IGAIN_ADR /\
  dgain (pid w') = eeprom w DGAIN_ADR /\
  targetTemp (main w') = eeprom w TEMP_SETTING_ADR.
Proof. repeat split; reflexivity. Qed.

Lemma persisted_setup fuel w : persisted (state_after setup fuel w).
Proof. repeat split; reflexivity. Qed.



(** *** The step size of the serial interface *)

Lemma f32_same_eq a b : f32_same a b = true -> a = b.
Proof.
  destruct a as [s|s| |s m e], b as [s'|s'| |s' m' e']; simpl; intros H;
    try discriminate; try reflexivity.
  - apply eqb_prop in H. congruence.
  - apply eqb_prop in H. congruence.
  - apply andb_true_iff in H. destruct H as [H H3].
    apply andb_true_iff in H. destruct H as [H1 H2].
    apply eqb_prop in H1. apply Pos.eqb_eq in H2. apply Z.eqb_eq in H3. congruence.
Qed.

Lemma delta_known_in d : delta_known d = true -> In d delta_values.
Proof.
  unfold delta_known. intros H. apply existsb_exists in H.
  destruct H as [x [Hin Hx]]. apply f32_same_eq in Hx. subst. exact Hin.
Qed.

Lemma delta_values_closed :
  forallb (fun d =>
    delta_known (let d' := (d * f10_0)%f32 in
                 if (d' >? MAX_DELTA)%f32 then MAX_DELTA else d') &&
    delta_known (let d' := (d / f10_0)%f32 in
                 if (d' <? MIN_DELTA)%f32 then MIN_DELTA else d') &&
    (MIN_DELTA <=? d)%f32 && (d <=? MAX_DELTA)%f32) delta_values = true.
Proof. vm_compute. reflexivity. Qed.

Lemma delta_values_facts d :
  delta_known d = true ->
  delta_known (let d' := (d * f10_0)%f32 in
               if (d' >? MAX_DELTA)%f32 then MAX_DELTA else d') = true /\
  delta_known (let d' := (d / f10_0)%f32 in
               if (d' <? MIN_DELTA)%f32 then MIN_DELTA else d') = true /\
  (MIN_DELTA <=? d)%f32 = true /\ (d <=? MAX_DELTA)%f32 = true.
Proof.
  intros H. apply delta_known_in in H.
  pose proof (proj1 (forallb_forall _ _) delta_values_closed d H) as F.
  cbv beta in F.
  apply andb_true_iff in F. destruct F as [F F4].
  apply andb_true_iff in F. destruct F as [F F3].
  apply andb_true_iff in F. destruct F as [F1 F2]. auto.
Qed.

Lemma delta_ok_up :
  preserves delta_ok
    (upd_serial (fun s => set_delta (delta s * f10_0)%f32 s) ;;
     s <- gets serial ;;
     when (delta s >? MAX_DELTA)%f32 (upd_serial (set_delta MAX_DELTA))).
Proof.
  intros w H. destruct (delta_values_facts _ H) as [F _].
  unfold delta_ok, exec, bind, gets, when, upd_serial, modify. cbn.
  cbv zeta in F.
  destruct (F32.ltb MAX_DELTA (delta (serial w) * f10_0)%f32); exact F.
Qed.

Lemma delta_ok_down :
  preserves delta_ok
    (upd_serial (fun s => set_delta (delta s / f10_0)%f32 s) ;;
     s <- gets serial ;;
     when (delta s <? MIN_DELTA)%f32 (upd_serial (set_delta MIN_DELTA))).
Proof.
  intros w H. destruct (delta_values_facts _ H) as [_ [F _]].
  unfold delta_ok, exec, bind, gets, when, upd_serial, modify. cbn.
  cbv zeta in F.
  destruct (F32.ltb (delta (serial w) / f10_0)%f32 MIN_DELTA); exact F.
Qed.

Lemma delta_ok_incoming c : preserves delta_ok (upd_serial (set_incomingByte c)).
Proof. pres_leaf. Qed.
Lemma delta_ok_autoupdate :
  preserves delta_ok (upd_serial (fun s => set_autoupdate (negb (autoupdate s)) s)).
Proof. pres_leaf. Qed.
Lemma delta_ok_printmode :
  preserves delta_ok (upd_serial (fun s => set_printmode (negb (printmode s)) s)).
Proof. pres_leaf. Qed.
Lemma delta_ok_lastUpdateTime f :
  preserves delta_ok (upd_serial (fun s => set_lastUpdateTime (f s) s)).
Proof. pres_leaf. Qed.
Lemma delta_ok_lastUpdateTime0 :
  preserves delta_ok (upd_serial (set_lastUpdateTime 0)).
Proof. pres_leaf. Qed.
Lemma delta_ok_setP p : preserves delta_ok (setP p).
Proof. pres_leaf. Qed.
Lemma delta_ok_setI p : preserves delta_ok (setI p).
Proof. pres_leaf. Qed.
Lemma delta_ok_setD p : preserves delta_ok (setD p).
Proof. pres_leaf. Qed.
Lemma delta_ok_setTargetTemp p : preserves delta_ok (setTargetTemp p).
Proof. pres_leaf. Qed.
Lemma delta_ok_millis : preserves delta_ok millis.
Proof. pres_leaf. Qed.
Lemma delta_ok_upd_sampler f : preserves delta_ok (upd_sampler f).
Proof. pres_leaf. Qed.
Lemma delta_ok_upd_dec f : preserves delta_ok (upd_dec f).
Proof. pres_leaf. Qed.
Lemma delta_ok_upd_main f : preserves delta_ok (upd_main f).
Proof. pres_leaf. Qed.
Lemma delta_ok_upd_heater f : preserves delta_ok (upd_heater f).
Proof. pres_leaf. Qed.
Lemma delta_ok_upd_pid f : preserves delta_ok (upd_pid f).
Proof. pres_leaf. Qed.
Lemma delta_ok_set_rx f : preserves delta_ok (modify (fun w => set_rx (f w) w)).
Proof. pres_leaf. Qed.
Lemma delta_ok_set_rx' l : preserves delta_ok (modify (set_rx l)).
Proof. pres_leaf. Qed.
#[local] Hint Resolve delta_ok_incoming
  delta_ok_autoupdate delta_ok_printmode delta_ok_lastUpdateTime
  delta_ok_lastUpdateTime0 delta_ok_setP delta_ok_setI delta_ok_setD
  delta_ok_setTargetTemp delta_ok_millis delta_ok_upd_sampler delta_ok_upd_dec
  delta_ok_upd_main delta_ok_upd_heater delta_ok_upd_pid delta_ok_set_rx
  delta_ok_set_rx' : pres.

Ltac delta_blocks :=
  idtac;
  match goal with
  | |- preserves _ (bind (upd_serial (fun s => set_delta (F32.mul _ _) s)) _) =>
      apply delta_ok_up
  | |- preserves _ (bind (upd_serial (fun s => set_delta (F32.div _ _) s)) _) =>
      apply delta_ok_down
  end.

Lemma delta_ok_serial_adjust c : preserves delta_ok (serial_adjust c).
Proof.
  unfold serial_adjust, getP, getI, getD, getTargetTemp.
  pres_with delta_blocks.
Qed.

Lemma delta_ok_updateTempSensor : preserves delta_ok updateTempSensor.
Proof. unfold updateTempSensor. pres. Qed.

Lemma delta_ok_getFreshTemp : preserves delta_ok getFreshTemp.
Proof. unfold getFreshTemp. pres. Qed.

Lemma delta_ok_updatePID t c : preserves delta_ok (updatePID t c).
Proof.
  intros w H. unfold delta_ok in *.
  replace (serial (exec (updatePID t c) w)) with (serial w); [exact H|].
  unfold updatePID, exec, bind, gets, upd_pid, modify, ret. simpl.
  destruct (F32.ltb _ _); simpl; [reflexivity|].
  destruct (F32.ltb _ _); simpl; reflexivity.
Qed.

Lemma delta_ok_setHeatPowerPercentage p :
  preserves delta_ok (setHeatPowerPercentage p).
Proof. pres_leaf. Qed.

Lemma delta_ok_updateHeater : preserves delta_ok updateHeater.
Proof. intros w H. rewrite updateHeater_exec. exact H. Qed.
#[local] Hint Resolve delta_ok_updateTempSensor
  delta_ok_getFreshTemp delta_ok_updatePID delta_ok_setHeatPowerPercentage
  delta_ok_updateHeater : pres.

Lemma delta_ok_loop_control : preserves delta_ok loop_control.
Proof. unfold loop_control. pres. Qed.

Lemma delta_ok_session events : preservesP delta_ok (session events).
Proof.
  apply inv_session; intros.
  - apply delta_ok_serial_adjust.
  - apply delta_ok_loop_control.
  - apply delta_ok_millis.
  - apply delta_ok_lastUpdateTime.
  - apply delta_ok_upd_main.
  - apply delta_ok_set_rx.
  - apply delta_ok_upd_dec.
Qed.

Lemma delta_ok_setup fuel w : delta_ok w -> delta_ok (state_after setup fuel w).
Proof. intros H. exact H. Qed.



(** *** From clock edges to a temperature *)

Lemma updateTempSensor_object w :
  message_waiting (dec w) = 1 -> nth 0 (message (dec w)) 0 = 0x4c ->
  temp (sampler (exec updateTempSensor w)) = decode_temp (message (dec w)) /\
  message_waiting (dec (exec updateTempSensor w)) = 0.
Proof.
  intros Hw Htag. unfold_sensor. simpl. rewrite Hw, Htag. simpl.
  destruct (_ >? 1000); simpl; split; reflexivity.
Qed.

(** X11. From clock edges to degrees: the frame [0x4c hi lo sum 0x0D]
    clocked into an idle decoder, followed by [updateTempSensor], sets the
    object temperature to [raw/16.0 - 273.15] with [raw] the 16-bit reading
    of [hi] and [lo] ([256*hi + lo] for [hi < 0x80]), and clears the waiting
    flag. *)
Theorem frame_to_temperature (w : World) (hi lo sum : Z) :
  idle (dec w) -> data_byte hi -> data_byte lo -> data_byte sum ->
  exists d',
    readBits (frame_bits [0x4c; hi; lo; sum]) (dec w) = Some d' /\
    let w' := exec updateTempSensor (set_dec d' w) in
    temp (sampler w') = (F32.of_Z (raw16 hi lo) / f16_0 - f273_15)%f32 /\
    message_waiting (dec w') = 0 /\
    (hi < 128 -> raw16 hi lo = 256 * hi + lo).
Proof.
  intros Hi Hh Hl Hs.
  destruct (readBits_frame [0x4c; hi; lo; sum] (dec w) Hi) as
    [d' (E & M & W & N & B)].
  - cbn. lia.
  - repeat constructor; try assumption; try apply Hh; try apply Hl; try apply Hs;
      unfold is_byte; lia.
  - exists d'. split; [exact E|]. cbv zeta.
    destruct Hi as (_ & _ & _ & Hlen).
    assert (M' : message d' = [0x4c; hi; lo; sum]).
    { rewrite M. cbn [length]. rewrite skipn_all2 by lia. reflexivity. }
    destruct (updateTempSensor_object (set_dec d' w)) as [T F].
    + exact W.
    + cbn [dec set_dec]. rewrite M'. reflexivity.
    + split; [|split; [exact F|]].
      * rewrite T. cbn [dec set_dec]. rewrite M'. reflexivity.
      * intros H. destruct Hh as [Hh _]. destruct Hl as [Hl _].
        rewrite (raw16_cases hi lo Hh Hl).
        destruct (Z.ltb_spec hi 128); [reflexivity|lia].
Qed.

Lemma frame_to_temperature_witness :
  exists d',
    readBits (frame_bits [0x4c; 0x12; 0x34; 0x56]) (dec (boot (fun _ => F32.nan) [] (fun _ => 0))) = Some d' /\
    let w' := exec updateTempSensor (set_dec d' (boot (fun _ => F32.nan) [] (fun _ => 0))) in
    temp (sampler w') = (F32.of_Z (raw16 0x12 0x34) / f16_0 - f273_15)%f32 /\
    message_waiting (dec w') = 0 /\
    (0x12 < 128 -> raw16 0x12 0x34 = 256 * 0x12 + 0x34).
Proof.
  apply frame_to_temperature.
  - repeat split; reflexivity.
  - split; [unfold is_byte; lia | discriminate].
  - split; [unfold is_byte; lia | discriminate].
  - split; [unfold is_byte; lia | discriminate].
Defined.

(** *** Sensor timeout *)

(** X12. With no message waiting, [updateTempSensor] leaves both
    temperatures alone; if more than 1000 ms have passed since the last frame
    it clears the decoder counters and flags, restarts the deadline at the
    time then read and adds one to the timeout counter modulo 65536 (so
    65535 is followed by 0); otherwise decoder, counter and deadline are
    unchanged. *)
Theorem updateTempSensor_timeout (w : World) :
  message_waiting (dec w) = 0 ->
  let w' := exec updateTempSensor w in
  let now := u32 (clock w (reads w)) in
  temp (sampler w') = temp (sampler w) /\
  ambient (sampler w') = ambient (sampler w) /\
  (u32 (now - last_time (sampler w)) > 1000 ->
     consectutive_timeouts (sampler w') =
       u16 (consectutive_timeouts (sampler w) + 1) /\
     last_time (sampler w') = u32 (clock w (S (reads w))) /\
     nbits (dec w') = 0 /\ nbytes (dec w') = 0 /\ hexbyte (dec w') = 0 /\
     message_waiting (dec w') = 0 /\ byte_ready (dec w') = 0 /\
     message (dec w') = message (dec w)) /\
  (u32 (now - last_time (sampler w)) <= 1000 ->
     consectutive_timeouts (sampler w') = consectutive_timeouts (sampler w) /\
     last_time (sampler w') = last_time (sampler w) /\
     dec w' = dec w).
Proof.
  intros Hw w' now. subst w' now.
  unfold_sensor. simpl. rewrite Hw. simpl.
  destruct (Z.gtb_spec (u32 (u32 (clock w (reads w)) - last_time (sampler w))) 1000)
    as [Hgt|Hle]; simpl.
  - repeat split; try reflexivity; lia.
  - repeat split; try reflexivity; lia.
Qed.

Lemma updateTempSensor_timeout_witness :
  let w := timeout_demo 65535 in
  let w1 := set_clock (fun _ => 5000) w in
  consectutive_timeouts (sampler (exec updateTempSensor w1)) = 0.
Proof.
  intros w w1.
  assert (H0 : message_waiting (dec w1) = 0) by reflexivity.
  destruct (updateTempSensor_timeout w1 H0) as (_ & _ & T & _).
  destruct T as [T _]; [vm_compute; reflexivity|].
  rewrite T. reflexivity.
Defined.

(** *** The stored heat power *)

Lemma clamp_power_range p :
  let q := if (p <=? f0_0)%f32 then f0_0 else p in
  let h := if (q >=? f1000_0)%f32 then f1000_0 else q in
  F32.is_nan h = true \/ ((f0_0 <=? h)%f32 = true /\ (h <=? f1000_0)%f32 = true).
Proof.
  cbv zeta. destruct (F32.is_nan p) eqn:Hn.
  - left. destruct p; try discriminate. reflexivity.
  - right. destruct (F32.leb p f0_0) eqn:E0.
    + split; reflexivity.
    + destruct (F32.leb f1000_0 p) eqn:E1.
      * split; reflexivity.
      * split; apply ltb_leb, not_leb_ltb; auto.
Qed.

Lemma power_setHeatPowerPercentage p w :
  power_in_range (exec (setHeatPowerPercentage p) w).
Proof.
  unfold power_in_range. rewrite setHeatPowerPercentage_exec.
  cbn [heater set_heater heatcycles set_heatcycles]. apply clamp_power_range.
Qed.

Lemma power_keep_setHeatPowerPercentage p :
  preserves power_in_range (setHeatPowerPercentage p).
Proof. intros w _. apply power_setHeatPowerPercentage. Qed.

Lemma power_updateHeater : preserves power_in_range updateHeater.
Proof.
  intros w H. unfold power_in_range in *.
  rewrite updateHeater_heater, heater_step_heatcycles. exact H.
Qed.

Lemma power_updatePID t c : preserves power_in_range (updatePID t c).
Proof.
  intros w H. unfold power_in_range in *.
  replace (heater (exec (updatePID t c) w)) with (heater w); [exact H|].
  unfold updatePID, exec, bind, gets, upd_pid, modify, ret. simpl.
  destruct (F32.ltb _ _); simpl; [reflexivity|].
  destruct (F32.ltb _ _); simpl; reflexivity.
Qed.

Lemma power_millis : preserves power_in_range millis.
Proof. pres_leaf. Qed.
Lemma power_upd_serial f : preserves power_in_range (upd_serial f).
Proof. pres_leaf. Qed.
Lemma power_upd_sampler f : preserves power_in_range (upd_sampler f).
Proof. pres_leaf. Qed.
Lemma power_upd_dec f : preserves power_in_range (upd_dec f).
Proof. pres_leaf. Qed.
Lemma power_upd_main f : preserves power_in_range (upd_main f).
Proof. pres_leaf. Qed.
Lemma power_upd_pid f : preserves power_in_range (upd_pid f).
Proof. pres_leaf. Qed.
Lemma power_setP p : preserves power_in_range (setP p).
Proof. pres_leaf. Qed.
Lemma power_setI p : preserves power_in_range (setI p).
Proof. pres_leaf. Qed.
Lemma power_setD p : preserves power_in_range (setD p).
Proof. pres_leaf. Qed.
Lemma power_setTargetTemp p : preserves power_in_range (setTargetTemp p).
Proof. pres_leaf. Qed.
Lemma power_set_rx f : preserves power_in_range (modify (fun w => set_rx (f w) w)).
Proof. pres_leaf. Qed.
Lemma power_set_rx' l : preserves power_in_range (modify (set_rx l)).
Proof. pres_leaf. Qed.
Lemma power_readFloat a : preserves power_in_range (readFloat a).
Proof. pres_leaf. Qed.

#[local] Hint Resolve power_keep_setHeatPowerPercentage power_updateHeater
  power_updatePID power_millis power_upd_serial power_upd_sampler power_upd_dec
  power_upd_main power_upd_pid power_setP power_setI power_setD
  power_setTargetTemp power_set_rx power_set_rx' power_readFloat : pres.


Lemma power_serial_adjust c : preserves power_in_range (serial_adjust c).
Proof. unfold serial_adjust, getP, getI, getD, getTargetTemp. pres. Qed.

Lemma power_loop_control : preserves power_in_range loop_control.
Proof.
  unfold loop_control, updateTempSensor, getFreshTemp.
  pres.
Qed.

Lemma power_session events : preservesP power_in_range (session events).
Proof.
  apply inv_session; intros.
  - apply power_serial_adjust.
  - apply power_loop_control.
  - apply power_millis.
  - apply power_upd_serial.
  - apply power_upd_main.
  - apply power_set_rx.
  - apply power_upd_dec.
Qed.

Lemma power_setup fuel w :
  power_in_range w -> power_in_range (state_after setup fuel w).
Proof. intros H. exact H. Qed.



Lemma updateHeater_nan_power_never_off_witness :
  heaterState
    (heater (exec (updateHeaters 3)
       (exec (setHeatPowerPercentage F32.nan)
             (boot (fun _ => F32.nan) [] (fun k => 1000 * Z.of_nat k + 2000)))))
  = true.
Proof.
  apply (updateHeater_nan_power_never_off _ 2).
  - reflexivity.
  - right. left. vm_compute. discriminate.
Defined.

Lemma setHeatPowerPercentage_clamps_witness :
  heatcycles
    (heater (exec (setHeatPowerPercentage (F32.of_Z 5000))
                  (boot (fun _ => F32.nan) [] (fun _ => 0)))) = f1000_0.
Proof.
  pose proof (setHeatPowerPercentage_clamps (F32.of_Z 5000)
                (boot (fun _ => F32.nan) [] (fun _ => 0))) as H.
  cbv zeta in H. destruct H as [H _].
  destruct (H eq_refl) as (_ & _ & _ & H1 & _). exact (H1 eq_refl).
Defined.

Lemma updatePID_nan_propagates_witness :
  eval (updatePID F32.nan f30_0) (pid_demo f1_0 f0_0) = F32.nan /\
  F32.is_nan
    (heatcycles (heater
       (exec (setHeatPowerPercentage
                (eval (updatePID F32.nan f30_0) (pid_demo f1_0 f0_0)))
             (exec (updatePID F32.nan f30_0) (pid_demo f1_0 f0_0))))) = true.
Proof. apply updatePID_nan_propagates. right. left. reflexivity. Defined.

Lemma updatePID_eval_nan t c w :
  F32.is_nan (pgain (pid w)) = true \/ F32.is_nan t = true \/
    F32.is_nan c = true ->
  eval (updatePID t c) w = F32.nan.
Proof.
  intros H. rewrite updatePID_eval, updatePID_pid. cbv zeta.
  cbn [pTerm set_lastTemp set_dTerm set_iTerm set_iState set_pTerm].
  assert (P : (pgain (pid w) * (t - c))%f32 = F32.nan).
  { destruct H as [H|[H|H]]; apply is_nan_eq in H; rewrite H.
    - apply mul_nan_l.
    - rewrite sub_nan_l. apply mul_nan_r.
    - rewrite sub_nan_r. apply mul_nan_r. }
  rewrite P. reflexivity.
Qed.

Lemma updatePID_frame t c w :
  rx (exec (updatePID t c) w) = rx w /\
  heater (exec (updatePID t c) w) = heater w /\
  pgain (pid (exec (updatePID t c) w)) = pgain (pid w) /\
  serial (exec (updatePID t c) w) = serial w.
Proof.
  split; [|split; [|split; [rewrite updatePID_pid; reflexivity|]]];
    unfold updatePID, exec, bind, gets, upd_pid, modify, ret; simpl;
    (destruct (F32.ltb _ _); simpl; [reflexivity|]);
    destruct (F32.ltb _ _); simpl; reflexivity.
Qed.

Lemma nan_gain_pid_block f :
  preserves nan_gain_inv
    (upd_main f ;;
     target <- gets (fun w => targetTemp (main w)) ;;
     cur <- getFreshTemp ;;
     power <- updatePID target cur ;;
     upd_main (set_heatPower power) ;;
     setHeatPowerPercentage power).
Proof.
  intros w (R & G & H & A).
  rewrite exec_bind. set (w1 := exec (upd_main f) w).
  rewrite exec_bind. cbv beta.
  change (exec (gets (fun w => targetTemp (main w))) w1) with w1.
  set (target := eval (gets (fun w => targetTemp (main w))) w1).
  rewrite exec_bind. cbv beta.
  set (w2 := exec getFreshTemp w1). set (cur := eval getFreshTemp w1).
  rewrite exec_bind. cbv beta.
  assert (G2 : F32.is_nan (pgain (pid w2)) = true) by exact G.
  rewrite (updatePID_eval_nan target cur w2 (or_introl G2)).
  destruct (updatePID_frame target cur w2) as (F1 & F2 & F3 & F4).
  set (w3 := exec (updatePID target cur) w2) in *.
  rewrite exec_bind. cbv beta.
  rewrite setHeatPowerPercentage_exec.
  unfold nan_gain_inv.
  cbn [rx pid heater serial set_heater heatcycles set_heatcycles exec upd_main
       modify snd set_main].
  split; [rewrite F1; exact R|]. split; [rewrite F3; exact G|].
  split; [right; reflexivity|]. rewrite F4. exact A.
Qed.

Lemma nan_gain_updateHeater : preserves nan_gain_inv updateHeater.
Proof.
  intros w H. unfold nan_gain_inv in *.
  rewrite updateHeater_heater, heater_step_heatcycles.
  rewrite updateHeater_exec. exact H.
Qed.

Lemma nan_gain_override :
  preserves nan_gain_inv (setHeatPowerPercentage (F32.of_Z 0)).
Proof.
  intros w (R & G & H & A). repeat split; try assumption. left. reflexivity.
Qed.

Lemma nan_gain_millis : preserves nan_gain_inv millis.
Proof. pres_leaf. Qed.
Lemma nan_gain_upd_main f : preserves nan_gain_inv (upd_main f).
Proof. pres_leaf. Qed.
Lemma nan_gain_upd_sampler f : preserves nan_gain_inv (upd_sampler f).
Proof. pres_leaf. Qed.
Lemma nan_gain_upd_dec f : preserves nan_gain_inv (upd_dec f).
Proof. pres_leaf. Qed.

#[local] Hint Resolve nan_gain_updateHeater
  nan_gain_override nan_gain_millis nan_gain_upd_main nan_gain_upd_sampler
  nan_gain_upd_dec : pres.

Ltac pid_block :=
  idtac;
  match goal with
  | |- preserves _ (bind (upd_main _) (fun _ => bind (gets _) _)) =>
      apply nan_gain_pid_block
  end.

Lemma nan_gain_updateTempSensor : preserves nan_gain_inv updateTempSensor.
Proof. unfold updateTempSensor. pres_with pid_block. Qed.
#[local] Hint Resolve nan_gain_updateTempSensor : pres.

Lemma nan_gain_loop_control : preserves nan_gain_inv loop_control.
Proof. unfold loop_control. pres_with pid_block. Qed.

(** *** Runs that return *)

Lemma returnsP_bind {A B} Q (m : P A) (k : A -> P B) :
  returnsP Q m -> (forall a, returnsP Q (k a)) -> returnsP Q (pbind m k).
Proof.
  intros Hm Hk fuel w Hw.
  destruct (Hm fuel w Hw) as (a & w1 & o1 & E1 & H1).
  destruct (Hk a fuel w1 H1) as (b & w2 & o2 & E2 & H2).
  exists b, w2, (o1 ++ o2). split; [|exact H2].
  unfold pbind. rewrite E1, E2. reflexivity.
Qed.

Lemma returnsP_lift {A} Q (m : M A) : preserves Q m -> returnsP Q (lift m).
Proof.
  intros Hm fuel w Hw. exists (eval m w), (exec m w), [].
  split; [reflexivity | apply Hm, Hw].
Qed.

Lemma returnsP_pret {A} Q (a : A) : returnsP Q (pret a).
Proof. intros fuel w Hw. exists a, w, []. split; [reflexivity|exact Hw]. Qed.

(** With nothing typed and the periodic status off, the serial interface
    prints nothing. *)
Lemma nan_gain_updateSerialInterface :
  returnsP nan_gain_inv updateSerialInterface.
Proof.
  intros fuel w (R & G & H & A).
  exists tt. unfold nan_gain_inv.
  unfold updateSerialInterface, pbind, lift, pwhen, pret, exec, eval, bind,
    gets, millis, upd_serial, modify, ret.
  cbn. rewrite R. cbn.
  destruct (_ <? _); cbn; destruct (_ >? _); cbn; rewrite ?A; cbn;
    eexists; eexists; (split; [reflexivity|]); cbn; repeat split; assumption.
Qed.

Lemma nan_gain_loop : returnsP nan_gain_inv loop.
Proof.
  unfold loop.
  apply returnsP_bind; [apply returnsP_lift; pres|intros ?].
  apply returnsP_bind; [apply nan_gain_updateSerialInterface|intros ?].
  apply returnsP_lift, nan_gain_loop_control.
Qed.

Lemma nan_gain_session events :
  Forall silent events -> returnsP nan_gain_inv (session events).
Proof.
  induction events as [|[bytes isr] events IH]; intros Hs; cbn [session].
  - apply returnsP_pret.
  - inversion Hs as [|? ? Hb Hrest]; subst. unfold silent in Hb. cbn in Hb.
    subst bytes.
    apply returnsP_bind; [apply returnsP_lift|intros ?].
    { apply preserves_bind; [|intros ?; apply nan_gain_upd_dec].
      intros w (R & G & H & A). unfold nan_gain_inv. cbn. rewrite R. auto. }
    apply returnsP_bind; [apply nan_gain_loop|intros ?].
    apply IH, Hrest.
Qed.

(** X14. A chip whose stored proportional gain is NaN (an erased EEPROM
    reads as NaN), left alone on the serial line: [setup] and any session
    return, whatever the sensor sends and however few rounds [printFloat]
    would be allowed, and at the end the gain is still NaN and the stored
    power is never a positive number. It is [0.0], before the first PID
    update and while the timeout override holds, or NaN, for which the
    heater is never switched off. *)
Theorem nan_gain_power_zero_or_nan
    (rom : Z -> float32) (clk : nat -> Z) (events : list event)
    (fuel : nat) :
  F32.is_nan (rom PGAIN_ADR) = true -> Forall silent events ->
  exists w out,
    (setup ;;; session events) fuel (boot rom [] clk) = Done (tt, w, out) /\
    F32.is_nan (pgain (pid w)) = true /\
    (heatcycles (heater w) = f0_0 \/
     F32.is_nan (heatcycles (heater w)) = true).
Proof.
  intros Hr Hs.
  assert (I : nan_gain_inv (state_after setup fuel (boot rom [] clk))).
  { split; [reflexivity|]. split; [exact Hr|].
    split; [left|]; reflexivity. }
  destruct (nan_gain_session events Hs fuel _ I)
    as ([] & w & o2 & E & (_ & G & H & _)).
  exists w, (output_of setup fuel (boot rom [] clk) ++ o2).
  split; [|split; assumption].
  unfold pbind. rewrite setup_done, E. reflexivity.
Qed.

Lemma nan_gain_power_zero_or_nan_witness :
  exists w out,
    (setup ;;; session [([], fun d => d); ([], fun d => d)]) 0%nat
      (boot (fun _ => F32.nan) [] (fun k => 50 * Z.of_nat k))
      = Done (tt, w, out) /\
    F32.is_nan (pgain (pid w)) = true /\
    (heatcycles (heater w) = f0_0 \/
     F32.is_nan (heatcycles (heater w)) = true).
Proof.
  apply nan_gain_power_zero_or_nan.
  - reflexivity.
  - repeat constructor.
Defined.

Example fresh_chip_heater_full_on :
  let w := state_after (setup ;;; session [([], fun d => d); ([], fun d => d)])
             0%nat (boot (fun _ => F32.nan) [] (fun k => 50 * Z.of_nat k)) in
  F32.is_nan (heatcycles (heater w)) = true.
Proof. vm_compute. reflexivity. Qed.

Lemma mul_finite_signed s x m e :
  signed_as s x -> signed_as s (x * S754_finite false m e)%f32.
Proof.
  unfold F32.mul. destruct x as [sx|sx| |sx mx ex]; simpl; intros H;
    try contradiction; subst; try (destruct s; reflexivity).
  replace s with (xorb s false) at 1 by (destruct s; reflexivity).
  apply binary_round_aux_signed. lia.
Qed.

Lemma div_finite_signed s x m e :
  signed_as s x -> signed_as s (x / S754_finite false m e)%f32.
Proof.
  unfold F32.div. destruct x as [sx|sx| |sx mx ex]; simpl; intros H;
    try contradiction; subst; try (destruct s; reflexivity).
  pose proof (div_core_nonneg F32.prec F32.emax mx ex m e) as Hq.
  destruct (SFdiv_core_binary _ _ _ _ _ _) as [[mz ez] lz]. simpl in Hq.
  replace s with (xorb s false) at 1 by (destruct s; reflexivity).
  apply binary_round_aux_signed. exact Hq.
Qed.

Lemma scale_d_signed s n : forall d, signed_as s d -> signed_as s (scale_d n d).
Proof.
  induction n as [|n IH]; intros d H; [exact H|].
  cbn [scale_d]. apply IH. unfold f10_0. apply div_finite_signed, H.
Qed.

Lemma leb_pos_infinity x :
  signed_as false x -> F32.leb x (S754_infinity false) = true.
Proof. destruct x as [s|s| |s m e]; simpl; intros H; try contradiction; subst; reflexivity. Qed.

Lemma tens_loop_diverges fuel : forall tens count,
  signed_as false tens -> tens_loop fuel tens count (S754_infinity false) = None.
Proof.
  induction fuel as [|fuel IH]; intros tens count H; [reflexivity|].
  cbn [tens_loop].
  assert (H' : signed_as false (tens * f10_0)%f32)
    by (unfold f10_0; apply mul_finite_signed, H).
  rewrite (leb_pos_infinity _ H'). apply IH, H'.
Qed.

Lemma tens_loop_exits n : forall fuel tens count x,
  (n < fuel)%nat ->
  F32.leb (tens_after n tens * f10_0)%f32 x = false ->
  exists tens' count', tens_loop fuel tens count x = Some (tens', count').
Proof.
  induction n as [|n IH]; intros fuel tens count x Hf Hx;
    (destruct fuel as [|fuel]; [lia|]); cbn [tens_loop].
  - cbn [tens_after] in Hx. rewrite Hx. eauto.
  - destruct (F32.leb (tens * f10_0)%f32 x); [|eauto].
    apply IH; [lia|exact Hx].
Qed.

Lemma tens_after_39 : (tens_after 39 f0_1 * f10_0)%f32 = S754_infinity false.
Proof. vm_compute. reflexivity. Qed.

Lemma leb_infinity_l x :
  x <> S754_infinity false -> F32.leb (S754_infinity false) x = false.
Proof.
  destruct x as [s|s| |s m e]; intros H; try reflexivity.
  destruct s; [reflexivity|congruence].
Qed.

Lemma printFloat_infinite fuel value places :
  is_infinite value = true -> printFloat fuel value places = OutOfFuel.
Proof.
  intros Hi. destruct value as [s|s| |s m e]; try discriminate.
  unfold printFloat. cbv zeta.
  destruct s.
  - change (F32.ltb (S754_infinity true) f0_0) with true. cbv iota.
    change (f0_5 * f1_0_neg)%f32 with (S754_finite true 8388608 (-24)).
    pose proof (scale_d_signed true (Z.to_nat places)
                  (S754_finite true 8388608 (-24)) eq_refl) as Hd.
    destruct (scale_d _ _) as [sd|sd| |sd md ed]; simpl in Hd;
      try contradiction; subst;
      (change ((S754_infinity true + _) * f1_0_neg)%f32
         with (S754_infinity false));
      rewrite tens_loop_diverges by reflexivity; reflexivity.
  - change (F32.ltb (S754_infinity false) f0_0) with false. cbv iota.
    pose proof (scale_d_signed false (Z.to_nat places) f0_5 eq_refl) as Hd.
    destruct (scale_d _ _) as [sd|sd| |sd md ed]; simpl in Hd;
      try contradiction; subst;
      (change (S754_infinity false + _)%f32 with (S754_infinity false));
      rewrite tens_loop_diverges by reflexivity; reflexivity.
Qed.

(** X15. [printFloat] never returns for an infinite value: the loop that
    looks for the magnitude, [while ((tens * 10.0) <= tempfloat)], runs for
    ever once [tens] has overflowed to infinity. For every other value of
    [tempfloat] that loop is left within 40 rounds. *)
Theorem printFloat_hangs_on_infinity (value : float32) (places : Z) :
  (is_infinite value = true ->
   forall fuel, printFloat fuel value places = OutOfFuel) /\
  (forall tempfloat, tempfloat <> S754_infinity false ->
   exists tens tenscount,
     tens_loop 40 f0_1 0 tempfloat = Some (tens, tenscount)).
Proof.
  split.
  - intros Hi fuel. apply printFloat_infinite, Hi.
  - intros x Hx. apply (tens_loop_exits 39); [lia|].
    rewrite tens_after_39. apply leb_infinity_l, Hx.
Qed.

(** *** A status line that is never finished *)

Lemma Serial_print_done s fuel w a w' out :
  Serial_print s fuel w = Done (a, w', out) -> w' = w.
Proof. intros E. inversion E. reflexivity. Qed.

Lemma callPrintFloat_done v places fuel w a w' out :
  callPrintFloat v places fuel w = Done (a, w', out) ->
  w' = w /\ printFloat fuel v places = Done out.
Proof.
  unfold callPrintFloat. destruct (printFloat fuel v places); try discriminate.
  intros E. inversion E. split; reflexivity.
Qed.

Lemma printStatus_needs_gain fuel w a w' out :
  printStatus fuel w = Done (a, w', out) ->
  exists o, printFloat fuel (pgain (pid w)) 2 = Done o.
Proof.
  unfold printStatus. intros E.
  apply pbind_done in E. destruct E as (? & w1 & ? & ? & E1 & E & _).
  apply Serial_print_done in E1. subst w1.
  apply pbind_done in E. destruct E as (? & w1 & ? & ? & E1 & E & _).
  apply lift_done in E1. destruct E1 as (_ & -> & _).
  apply pbind_done in E. destruct E as (? & w1 & ? & ? & E1 & E & _).
  apply callPrintFloat_done in E1. destruct E1 as [-> _].
  apply pbind_done in E. destruct E as (? & w1 & ? & ? & E1 & E & _).
  apply Serial_print_done in E1. subst w1.
  apply pbind_done in E. destruct E as (? & w1 & ? & ? & E1 & E & _).
  apply lift_done in E1. destruct E1 as (_ & -> & _).
  apply pbind_done in E. destruct E as (? & w1 & ? & ? & E1 & E & _).
  apply callPrintFloat_done in E1. destruct E1 as [-> _].
  apply pbind_done in E. destruct E as (? & w1 & ? & ? & E1 & E & _).
  apply Serial_print_done in E1. subst w1.
  apply pbind_done in E. destruct E as (g & w1 & ? & ? & E1 & E & _).
  apply lift_done in E1. destruct E1 as (-> & -> & _).
  apply pbind_done in E. destruct E as (? & w1 & ? & o & E1 & E & _).
  apply callPrintFloat_done in E1. destruct E1 as [_ E1].
  eexists. exact E1.
Qed.

(** X17. An iteration of [loop] that finds a space on the serial line while
    the proportional gain is infinite never returns: the status line it
    starts cannot get past the gain, so neither the PID update nor the
    timeout check nor the heater poll of that iteration is reached. *)
Theorem loop_status_hangs_on_infinite_gain
    (fuel : nat) (w : World) (rest : list Z) :
  rx w = chr " " :: rest -> is_infinite (pgain (pid w)) = true ->
  forall r, loop fuel w <> Done r.
Proof.
  intros R I [[[] w'] out] E. unfold loop in E.
  apply pbind_done in E. destruct E as (? & w1 & ? & ? & E1 & E & _).
  apply lift_done in E1. destruct E1 as (_ & -> & _).
  apply pbind_done in E. destruct E as (? & w2 & ? & ? & E & _ & _).
  unfold updateSerialInterface in E.
  apply pbind_done in E. destruct E as (pending & w3 & ? & ? & E1 & E & _).
  apply lift_done in E1. destruct E1 as (-> & -> & _).
  apply pbind_done in E. destruct E as (? & w4 & ? & ? & E & _ & _).
  change (eval (gets rx) _) with (rx w) in E. rewrite R in E.
  cbn [serial_drain] in E.
  apply pbind_done in E. destruct E as (? & w5 & ? & ? & E1 & E & _).
  apply lift_done in E1. destruct E1 as (_ & -> & _).
  apply pbind_done in E. destruct E as (? & w6 & ? & ? & E & _ & _).
  unfold serial_command in E.
  apply pbind_done in E. destruct E as (? & w7 & ? & ? & E1 & E & _).
  apply lift_done in E1. destruct E1 as (_ & -> & _).
  apply pbind_done in E. destruct E as (? & w8 & ? & ? & E & _ & _).
  change (chr " " =? chr " ") with true in E. cbn [pwhen] in E.
  apply printStatus_needs_gain in E. destruct E as [o E].
  rewrite printFloat_infinite in E; [discriminate|exact I].
Qed.

(** An EEPROM whose slots read as +infinity, and a space typed before the
    first iteration: allowed 1000 rounds, the iteration has not come back. *)
Lemma loop_status_hangs_on_infinite_gain_witness :
  returned
    (loop 1000%nat
       (state_after setup 0
          (boot (fun _ => S754_infinity false) [chr " "] (fun _ => 0))))
  = false.
Proof.
  destruct (loop 1000%nat
              (state_after setup 0
                 (boot (fun _ => S754_infinity false) [chr " "] (fun _ => 0))))
    as [r| |] eqn:E; [|reflexivity|reflexivity].
  exfalso.
  exact (loop_status_hangs_on_infinite_gain 1000%nat
           (state_after setup 0
              (boot (fun _ => S754_infinity false) [chr " "] (fun _ => 0)))
           [] eq_refl eq_refl r E).
Defined.

Lemma token_eqb_eq a b : token_eqb a b = true -> a = b.
Proof.
  destruct a, b; simpl; intros H; try discriminate.
  - apply String.eqb_eq in H. congruence.
  - apply Ascii.eqb_eq in H. congruence.
  - apply Z.eqb_eq in H. congruence.
Qed.

Lemma tokens_eqb_eq a : forall b, tokens_eqb a b = true -> a = b.
Proof.
  induction a as [|x a IH]; intros [|y b] H; simpl in H; try discriminate.
  - reflexivity.
  - apply andb_true_iff in H. destruct H as [H1 H2].
    apply token_eqb_eq in H1. apply IH in H2. congruence.
Qed.

Lemma prints_sound value places expected :
  prints value places expected = true ->
  printFloat 40 value places = Done expected.
Proof.
  unfold prints. destruct (printFloat 40 value places); try discriminate.
  intros H. apply tokens_eqb_eq in H. congruence.
Qed.

Lemma in_zrange lo hi k : lo <= k <= hi -> In k (zrange lo hi).
Proof.
  intros H. unfold zrange. apply in_map_iff.
  exists (Z.to_nat (k - lo)). split; [lia|]. apply in_seq. lia.
Qed.

Lemma prints_two_decimals_list :
  forallb (fun k => prints (F32.lit k 100) 2 (shown2 k)) (zrange (-1000) 5000)
  = true.
Proof. vm_compute. reflexivity. Qed.

Lemma prints_power_list :
  forallb (fun n => prints (F32.of_Z n) 0 (decimal n)) (zrange 0 1000) = true.
Proof. vm_compute. reflexivity. Qed.

(** X16. What the rounding step is for: every value with two decimals from
    -10.00 to 50.00, given as the nearest float, is printed with
    [places = 2] as exactly that value, within 40 rounds of the [while]
    loop; and every whole number from 0 to 1000, the range of the heat power,
    is printed with [places = 0] as itself. *)
Theorem printFloat_exact_in_range :
  (forall k, -1000 <= k <= 5000 ->
     printFloat 40 (F32.lit k 100) 2 = Done (shown2 k)) /\
  (forall n, 0 <= n <= 1000 ->
     printFloat 40 (F32.of_Z n) 0 = Done (decimal n)).
Proof.
  split.
  - intros k Hk. apply prints_sound.
    apply (proj1 (forallb_forall _ _) prints_two_decimals_list k).
    apply in_zrange. lia.
  - intros n Hn. apply prints_sound.
    apply (proj1 (forallb_forall _ _) prints_power_list n).
    apply in_zrange. lia.
Qed.
